(** * KeyCloakService: session token lifecycle manager

    A shallow embedding of
    [src/vue/sbc-common-components/src/services/keycloak.services.ts].

    The class is a stateful object living in a browser: it owns a reference
    to a keycloak-js client, a cached decoded token, a counter and a timer
    handle; it reads and writes session storage, arms timers and talks to
    the identity provider through promises.  The embedding keeps that
    shape:

    - [World] holds the fields of the service together with the browser
      state the code touches (session storage, the pending timers, the
      in-flight provider calls with the handlers attached to them, the
      promises handed to callers, the heap of keycloak-js clients);
    - synchronous method bodies are computations in a state-and-exception
      monad [Js];
    - [then]/[catch] callbacks and timer callbacks are defunctionalised
      ([Handler], [Timer]) and run by the event loop [step]. *)

From stdpp Require Import gmap strings list pretty.
From Stdlib Require Import ZArith Ascii.

Open Scope string_scope.
Open Scope Z_scope.

(** ** JavaScript values *)

(** The values that flow through promises, decoded tokens and the auth
    store.  [VRealm] is an object with an optional [roles] array of strings
    (the [realm_access] claim). *)
Inductive Value :=
| VUndefined
| VBool (b : bool)
| VNum (z : Z)
| VStr (s : string)
| VError (msg : string)
| VRealm (roles : option (list string)).

#[global] Instance Value_eq_dec : EqDecision Value.
Proof. solve_decision. Defined.

(** JavaScript truthiness. *)
Definition truthy (v : Value) : bool :=
  match v with
  | VUndefined => false
  | VBool b => b
  | VNum z => negb (z =? 0)
  | VStr s => negb (String.eqb s "")
  | VError _ | VRealm _ => true
  end.

(** [v || d] *)
Definition or_else (v d : Value) : Value := if truthy v then v else d.

(** [s || undefined] and [s || ''] for a [string | undefined]. *)
Definition str_or_undefined (s : option string) : option string :=
  match s with
  | Some x => if String.eqb x "" then None else Some x
  | None => None
  end.

Definition str_or_empty (s : option string) : string :=
  match s with Some x => x | None => "" end.

Definition str_truthy (s : option string) : bool :=
  match str_or_undefined s with Some _ => true | None => false end.

(** A number that may be [undefined]: truthy when present and not zero. *)
Definition num_truthy (n : option Z) : bool :=
  match n with Some z => negb (z =? 0) | None => false end.

Definition js_string_of_bool (b : bool) : string :=
  if b then "true" else "false".

(** String conversion as done by ['...' + error]: an integer in decimal
    digits (from 10^21 on JavaScript writes an exponent, which is not
    modelled), an [Error] as its name followed by its message, if any. *)
Definition to_string (v : Value) : string :=
  match v with
  | VUndefined => "undefined"
  | VBool b => js_string_of_bool b
  | VNum z => pretty z
  | VStr s => s
  | VError msg => if decide (msg = "") then "Error" else "Error: " +:+ msg
  | VRealm _ => "[object Object]"
  end.

(** [Math.ceil(ms / 1000)] on an integral number of milliseconds. *)
Definition ceil_seconds (ms : Z) : Z := - ((- ms) / 1000).

(** ** Session storage *)

(** Modelled from the spec: [util/constants] is not part of the sources;
    the keys are the ones the service uses (spec, External Interfaces),
    and [OtherKey] stands for whatever else the application keeps in
    session storage. *)
Inductive SessionStorageKeys :=
| KeyCloakToken
| KeyCloakIdToken
| KeyCloakRefreshToken
| SessionSynced
| PreventStorageSync
| SiteminderLogoutUrl
| OtherKey (name : string).

#[global] Instance SessionStorageKeys_eq_dec : EqDecision SessionStorageKeys.
Proof. solve_decision. Defined.

Definition key_code (k : SessionStorageKeys) : nat + string :=
  match k with
  | KeyCloakToken => inl 0%nat
  | KeyCloakIdToken => inl 1%nat
  | KeyCloakRefreshToken => inl 2%nat
  | SessionSynced => inl 3%nat
  | PreventStorageSync => inl 4%nat
  | SiteminderLogoutUrl => inl 5%nat
  | OtherKey s => inr s
  end.

Definition key_of_code (c : nat + string) : SessionStorageKeys :=
  match c with
  | inl 0%nat => KeyCloakToken
  | inl 1%nat => KeyCloakIdToken
  | inl 2%nat => KeyCloakRefreshToken
  | inl 3%nat => SessionSynced
  | inl 4%nat => PreventStorageSync
  | inl _ => SiteminderLogoutUrl
  | inr s => OtherKey s
  end.

#[global] Instance SessionStorageKeys_countable : Countable SessionStorageKeys.
Proof.
  apply (inj_countable' key_code key_of_code).
  intros []; reflexivity.
Defined.

Abbreviation Storage := (gmap SessionStorageKeys string).

(** Modelled from the spec: [util/config-helper] is not part of the
    sources; the Session Store Adapter offers get, set, remove and clear
    over string values (a boolean is stored as its string). *)
Module ConfigHelper.
Definition getFromSession (k : SessionStorageKeys) (s : Storage) : option string :=
  s !! k.
Definition addToSession (k : SessionStorageKeys) (v : string) (s : Storage) : Storage :=
  <[k := v]> s.
Definition removeFromSession (k : SessionStorageKeys) (s : Storage) : Storage :=
  delete k s.
Definition clearSession (s : Storage) : Storage := ∅.
End ConfigHelper.

(** ** The keycloak-js client *)

Record KeycloakLoginOptions := {
  idpHint : option string;
  loginRedirectUri : option string;
  prompt : option string;
}.

Inductive OnLoad := LoginRequired | CheckSso.

Record KeycloakInitOptions := {
  onLoad : OnLoad;
  checkLoginIframe : bool;
  optTimeSkew : Z;
  optToken : option string;
  optRefreshToken : option string;
  optIdToken : option string;
  pkceMethod : string;
}.

(** A parsed token, of which the service reads the [exp] claim only. *)
Record KeycloakTokenParsed := { exp : option Z }.

(** The readable state of a client.  keycloak-js owns it: the service
    never writes these fields, the library does when a call completes. *)
Record KeycloakData := {
  authenticated : bool;
  token : option string;
  refreshToken : option string;
  idToken : option string;
  tokenParsed : option KeycloakTokenParsed;
  refreshTokenParsed : option KeycloakTokenParsed;
  timeSkew : option Z;
}.

(** What a call of the client's [login] entry point hands to the
    provider's own login routine: the options object, if any. *)
Definition LoginFn := option KeycloakLoginOptions -> option KeycloakLoginOptions.

Record KeycloakInstance := {
  config : string;
  data : KeycloakData;
  login : LoginFn;
}.

(** The library's own [login]: the options go to the provider as given. *)
Definition kcLogin : LoginFn := fun options => options.

Definition no_data : KeycloakData :=
  {| authenticated := false; token := None; refreshToken := None;
     idToken := None; tokenParsed := None; refreshTokenParsed := None;
     timeSkew := None |}.

(** [new Keycloak(config)] *)
Definition new_Keycloak (cfg : string) : KeycloakInstance :=
  {| config := cfg; data := no_data; login := kcLogin |}.

(** ** Promises, provider calls and timers *)

Inductive Settled :=
| Fulfilled (v : Value)
| Rejected (e : Value).

(** What an [async] method hands to its caller: a promise that is settled
    by the time the caller can look at it, or a pending one. *)
Inductive Promise :=
| Now (s : Settled)
| Later (p : nat).

Inductive ProviderCall :=
| CallInit (opts : KeycloakInitOptions)
| CallUpdateToken (minValidity : Z)
| CallLogout (redirectUri : string).

(** The [then]/[catch] pairs attached to provider promises, one
    constructor per place in the source, with the variables each closure
    captures. *)
Inductive Handler :=
| HInitializeKeyCloak (p : nat)
| HLogoutInit (p : nat) (redirectUrl : option string) (siteminderLogoutUrl : option string)
| HLogoutDone (p : nat)
| HRefreshToken
| HInitializeToken (p : nat) (isScheduleRefresh : bool)
| HScheduledRefresh (refreshEarlyTimeinMilliseconds : Z).

Record Request := {
  rqKc : nat;
  rqCall : ProviderCall;
  rqHandler : Handler;
}.

(** A pending [setTimeout] of [scheduleRefreshToken]: its delay and the
    early margin captured by the callback. *)
Record Timer := {
  tmDelay : Z;
  tmEarly : Z;
}.

(** Modelled from the spec: [stores] is not part of the sources; the Auth
    State Projection has setters for the three tokens, the user id and
    the login source, and a clear operation. *)
Record AuthState := {
  kcToken : Value;
  storeIdToken : Value;
  storeRefreshToken : Value;
  kcGuid : Value;
  storeLoginSource : Value;
}.

Definition empty_AuthState : AuthState :=
  {| kcToken := VStr ""; storeIdToken := VStr ""; storeRefreshToken := VStr "";
     kcGuid := VStr ""; storeLoginSource := VStr "" |}.

(** ** The world *)

(** The tables of the browser and of the libraries are slot lists: a
    handle is an index, a fresh handle is the next index, and a slot is
    emptied when its timer fires or is cancelled, or when its provider call
    completes.  [promises] holds [None] for a pending promise, and
    [authStore] is [None] while no store is active. *)
Record World := {
  (* fields of KeyCloakService *)
  kc : option nat;
  parsedToken : option (gmap string Value);
  counter : Z;
  timerId : Z;
  (* the browser and the libraries *)
  keycloakConfigUrl : string;
  heap : list KeycloakInstance;
  session : Storage;
  authStore : option AuthState;
  timers : list (option Timer);
  requests : list (option Request);
  promises : list (option Settled);
}.

Definition set_kc (x : option nat) (w : World) : World :=
  {| kc := x; parsedToken := parsedToken w; counter := counter w;
     timerId := timerId w; keycloakConfigUrl := keycloakConfigUrl w;
     heap := heap w; session := session w; authStore := authStore w;
     timers := timers w; requests := requests w; promises := promises w |}.

Definition set_parsedToken (x : option (gmap string Value)) (w : World) : World :=
  {| kc := kc w; parsedToken := x; counter := counter w;
     timerId := timerId w; keycloakConfigUrl := keycloakConfigUrl w;
     heap := heap w; session := session w; authStore := authStore w;
     timers := timers w; requests := requests w; promises := promises w |}.

Definition set_counter (x : Z) (w : World) : World :=
  {| kc := kc w; parsedToken := parsedToken w; counter := x;
     timerId := timerId w; keycloakConfigUrl := keycloakConfigUrl w;
     heap := heap w; session := session w; authStore := authStore w;
     timers := timers w; requests := requests w; promises := promises w |}.

Definition set_timerId (x : Z) (w : World) : World :=
  {| kc := kc w; parsedToken := parsedToken w; counter := counter w;
     timerId := x; keycloakConfigUrl := keycloakConfigUrl w;
     heap := heap w; session := session w; authStore := authStore w;
     timers := timers w; requests := requests w; promises := promises w |}.

Definition set_keycloakConfigUrl (x : string) (w : World) : World :=
  {| kc := kc w; parsedToken := parsedToken w; counter := counter w;
     timerId := timerId w; keycloakConfigUrl := x;
     heap := heap w; session := session w; authStore := authStore w;
     timers := timers w; requests := requests w; promises := promises w |}.

Definition set_heap (x : list KeycloakInstance) (w : World) : World :=
  {| kc := kc w; parsedToken := parsedToken w; counter := counter w;
     timerId := timerId w; keycloakConfigUrl := keycloakConfigUrl w;
     heap := x; session := session w; authStore := authStore w;
     timers := timers w; requests := requests w; promises := promises w |}.

Definition set_session (x : Storage) (w : World) : World :=
  {| kc := kc w; parsedToken := parsedToken w; counter := counter w;
     timerId := timerId w; keycloakConfigUrl := keycloakConfigUrl w;
     heap := heap w; session := x; authStore := authStore w;
     timers := timers w; requests := requests w; promises := promises w |}.

Definition set_authStore (x : option AuthState) (w : World) : World :=
  {| kc := kc w; parsedToken := parsedToken w; counter := counter w;
     timerId := timerId w; keycloakConfigUrl := keycloakConfigUrl w;
     heap := heap w; session := session w; authStore := x;
     timers := timers w; requests := requests w; promises := promises w |}.

Definition set_timers (x : list (option Timer)) (w : World) : World :=
  {| kc := kc w; parsedToken := parsedToken w; counter := counter w;
     timerId := timerId w; keycloakConfigUrl := keycloakConfigUrl w;
     heap := heap w; session := session w; authStore := authStore w;
     timers := x; requests := requests w; promises := promises w |}.

Definition set_requests (x : list (option Request)) (w : World) : World :=
  {| kc := kc w; parsedToken := parsedToken w; counter := counter w;
     timerId := timerId w; keycloakConfigUrl := keycloakConfigUrl w;
     heap := heap w; session := session w; authStore := authStore w;
     timers := timers w; requests := x; promises := promises w |}.

Definition set_promises (x : list (option Settled)) (w : World) : World :=
  {| kc := kc w; parsedToken := parsedToken w; counter := counter w;
     timerId := timerId w; keycloakConfigUrl := keycloakConfigUrl w;
     heap := heap w; session := session w; authStore := authStore w;
     timers := timers w; requests := requests w; promises := x |}.

(** [this.kc], dereferenced. *)
Definition the_kc (w : World) : option KeycloakInstance :=
  r ← kc w; heap w !! r.

Definition kc_data (w : World) : option KeycloakData := data <$> the_kc w.

(** [this.kc?.token], [this.kc?.tokenParsed?.exp] and the like. *)
Definition kc_token (w : World) : option string := d ← kc_data w; token d.
Definition kc_idToken (w : World) : option string := d ← kc_data w; idToken d.
Definition kc_refreshToken (w : World) : option string := d ← kc_data w; refreshToken d.
Definition kc_timeSkew (w : World) : option Z := d ← kc_data w; timeSkew d.
Definition kc_exp (w : World) : option Z :=
  d ← kc_data w; parsed ← tokenParsed d; exp parsed.

(** The timers that are armed and the provider calls that are in flight. *)
Definition pending_timers (w : World) : list Timer := omap id (timers w).
Definition in_flight (w : World) : list Request := omap id (requests w).

(** ** Synchronous code: state and exceptions *)

Inductive Completion (A : Type) :=
| Normal (a : A)
| Thrown (e : Value).
Arguments Normal {A} a.
Arguments Thrown {A} e.

(** A thrown exception keeps the writes made before it. *)
Definition Js (A : Type) : Type := World -> Completion A * World.

#[global] Instance Js_ret : MRet Js := fun A a w => (Normal a, w).
#[global] Instance Js_bind : MBind Js := fun A B f m w =>
  match m w with
  | (Normal a, w') => f a w'
  | (Thrown e, w') => (Thrown e, w')
  end.

Definition get : Js World := fun w => (Normal w, w).
Definition modify (f : World -> World) : Js unit := fun w => (Normal tt, f w).
Definition throw {A} (e : Value) : Js A := fun w => (Thrown e, w).
Definition when (b : bool) (m : Js unit) : Js unit := if b then m else mret tt.

(** [promise.then(on_ok).catch(on_err)]: a rejection, and an exception
    thrown by [on_ok], both reach [on_err].  The result is the settlement
    of the promise the chain evaluates to: fulfilled with what the callback
    that ran returned, rejected with what [on_err] threw. *)
Definition then_catch (on_ok on_err : Value -> Js Value) (s : Settled) : Js Value :=
  match s with
  | Fulfilled v => fun w =>
      match on_ok v w with
      | (Thrown e, w') => on_err e w'
      | r => r
      end
  | Rejected e => on_err e
  end.

(** A callback without [return]. *)
Definition returns_nothing (m : Js unit) : Js Value := m;; mret VUndefined.

(** An [async] method as seen by its caller: the body runs at once; a
    returned promise is adopted, an exception rejects. *)
Definition async (body : Js Promise) (w : World) : Promise * World :=
  match body w with
  | (Normal p, w') => (p, w')
  | (Thrown e, w') => (Now (Rejected e), w')
  end.

(** [return v] in an [async] method. *)
Definition resolved (v : Value) : Js Promise := mret (Now (Fulfilled v)).

(** [new Promise(...)], pending. *)
Definition new_promise : Js nat := fun w =>
  (Normal (length (promises w)), set_promises (promises w ++ [None]) w).

(** [resolve(v)] and [reject(e)]: without effect on a settled promise. *)
Definition settle (p : nat) (s : Settled) : Js unit :=
  modify (fun w =>
    match promises w !! p with
    | Some None => set_promises (<[p := Some s]> (promises w)) w
    | _ => w
    end).
Definition resolve (p : nat) (v : Value) : Js unit := settle p (Fulfilled v).
Definition reject (p : nat) (e : Value) : Js unit := settle p (Rejected e).

(** A call of [init], [updateToken] or [logout] on client [r], with the
    callbacks attached to the promise it returns. *)
Definition call_provider (r : nat) (c : ProviderCall) (h : Handler) : Js unit :=
  modify (fun w =>
    set_requests (requests w ++ [Some {| rqKc := r; rqCall := c; rqHandler := h |}]) w).

(** [setTimeout]: handles are positive; the handle of slot [i] is [i + 1]. *)
Definition setTimeout (t : Timer) : Js Z := fun w =>
  (Normal (Z.of_nat (length (timers w)) + 1), set_timers (timers w ++ [Some t]) w).

Definition clearTimeout (h : Z) : Js unit :=
  modify (fun w =>
    if 1 <=? h then set_timers (<[Z.to_nat (h - 1) := None]> (timers w)) w else w).

(** [this.kc = new Keycloak(ConfigHelper.getKeycloakConfigUrl())] *)
Definition new_kc : Js nat := fun w =>
  let r := length (heap w) in
  (Normal r, set_kc (Some r) (set_heap (heap w ++ [new_Keycloak (keycloakConfigUrl w)]) w)).

(** ** Helpers of [logout] *)

(** [s.includes(sub)] *)
Definition includes (sub s : string) : bool :=
  match String.index 0 sub s with Some _ => true | None => false end.

(** [s.replace(/(https?:\/\/)|(\/)+/g, '$1$2')]: a scheme separator is
    kept as it is, any other run of slashes becomes one slash.  [skip]
    counts the characters left of a scheme match, [in_run] tells that the
    previous character belonged to a run of slashes. *)
Fixpoint collapse_slashes (skip : nat) (in_run : bool) (s : string) : string :=
  match s with
  | EmptyString => EmptyString
  | String c s' =>
      match skip with
      | S k => String c (collapse_slashes k false s')
      | O =>
          if String.prefix "https://" s then String c (collapse_slashes 7 false s')
          else if String.prefix "http://" s then String c (collapse_slashes 6 false s')
          else if Ascii.eqb c "/"%char then
            if in_run then collapse_slashes 0 true s'
            else String c (collapse_slashes 0 true s')
          else String c (collapse_slashes 0 false s')
      end
  end.

(** The two successive readings of the clock, in milliseconds, taken by
    [scheduleRefreshToken]. *)
Record Readings := { now1 : Z; now2 : Z }.

(** The claims record returned by [getUserInfo]. *)
Record KCUserProfile := {
  lastName : Value;
  firstName : Value;
  email : Value;
  roles : option (list string);
  keycloakGuid : Value;
  userName : Value;
  fullName : Value;
  loginSource : Value;
}.

(** [parsedToken?.name] *)
Definition claim (t : option (gmap string Value)) (name : string) : Value :=
  match t with
  | Some m => default VUndefined (m !! name)
  | None => VUndefined
  end.

(** [parsedToken?.realm_access?.roles] *)
Definition realm_roles (t : option (gmap string Value)) : option (list string) :=
  match claim t "realm_access" with
  | VRealm r => r
  | _ => None
  end.

(** [a < 0] on a number that may be [NaN] ([None]). *)
Definition negative (a : option Z) : bool :=
  match a with Some z => z <? 0 | None => false end.

Definition value_of_token (s : option string) : Value :=
  match s with Some x => VStr x | None => VUndefined end.

(** ** The service *)

Module KeyCloakService.
Section Service.

(** JWT parsing, [window.location.origin] and [process.env.VUE_APP_PATH]
    are given by the environment. *)
Variable decodeJwt : string -> gmap string Value.
Variable location_origin : string.
Variable VUE_APP_PATH : string.

(** Modelled from the spec: [decodeKCToken] of [util/common-util] is not
    part of the sources; the Token Decoder maps the raw access token to
    its claims, and an absent token to a record without claims.  It is
    called without argument and takes the token from session storage. *)
Definition decodeKCToken (w : World) : gmap string Value :=
  match ConfigHelper.getFromSession KeyCloakToken (session w) with
  | Some t => decodeJwt t
  | None => ∅
  end.

Definition REFRESH_ATTEMPT_INTERVAL : Z := 10.

Definition isInitialized (w : World) : bool :=
  match kc w with Some _ => true | None => false end.

Definition setKeycloakConfigUrl (keyCloakConfigurl : string) : Js Promise :=
  modify (set_keycloakConfigUrl keyCloakConfigurl);;
  resolved VUndefined.

Definition getKCInstance (w : World) : option KeycloakInstance := the_kc w.

(** [private async clearSession]: no [await] in it, so the body has run
    when the call returns; no caller looks at its promise. *)
Definition clearSession : Js unit :=
  modify (fun w =>
    match authStore w with
    | Some _ => set_authStore (Some empty_AuthState) w
    | None => w
    end);;
  modify (fun w => set_session (ConfigHelper.removeFromSession KeyCloakToken (session w)) w);;
  modify (fun w => set_session (ConfigHelper.removeFromSession KeyCloakIdToken (session w)) w);;
  modify (fun w => set_session (ConfigHelper.removeFromSession KeyCloakRefreshToken (session w)) w).

Definition addToSession (k : SessionStorageKeys) (v : string) : Js unit :=
  modify (fun w => set_session (ConfigHelper.addToSession k v (session w)) w).

Definition syncSessionStorage : Js unit :=
  w ← get;
  match kc_data w with
  | Some d =>
      match str_or_undefined (token d) with
      | Some t => addToSession KeyCloakToken t
      | None => mret tt
      end;;
      match str_or_undefined (refreshToken d) with
      | Some t => addToSession KeyCloakRefreshToken t
      | None => mret tt
      end;;
      match str_or_undefined (idToken d) with
      | Some t => addToSession KeyCloakIdToken t
      | None => mret tt
      end;;
      addToSession SessionSynced (js_string_of_bool true)
  | None => addToSession SessionSynced (js_string_of_bool false)
  end.

Definition RefreshTokenExpired : Value :=
  VError "Refresh Token Expired. No more token refreshes".

(** [refreshTokenExpiresIn] of [scheduleRefreshToken]; [None] is the
    [NaN] obtained from a refresh token without [exp]. *)
Definition refreshTokenExpiresIn (w : World) (now : Z) : option Z :=
  match kc_data w with
  | Some d =>
      match timeSkew d, refreshTokenParsed d with
      | Some skew, Some parsed =>
          match exp parsed with
          | Some e => Some (e - ceil_seconds now + skew)
          | None => None
          end
      | _, _ => Some (-1)
      end
  | None => Some (-1)
  end.

(** [expiresIn] of [scheduleRefreshToken]. *)
Definition expiresIn (w : World) (now : Z) : Z :=
  match kc_data w with
  | Some d =>
      match tokenParsed d, timeSkew d with
      | Some parsed, Some skew =>
          match exp parsed with
          | Some e => if e =? 0 then -1 else e - ceil_seconds now + skew
          | None => -1
          end
      | _, _ => -1
      end
  | None => -1
  end.

Definition scheduleRefreshToken (refreshEarlyTimeinMilliseconds : Z) (t : Readings) : Js unit :=
  w ← get;
  if negative (refreshTokenExpiresIn w (now1 t)) then throw RefreshTokenExpired
  else if expiresIn w (now2 t) <? 0 then throw RefreshTokenExpired
  else
    let refreshInMilliSeconds := expiresIn w (now2 t) * 1000 - refreshEarlyTimeinMilliseconds in
    h ← setTimeout {| tmDelay := refreshInMilliSeconds;
                      tmEarly := refreshEarlyTimeinMilliseconds |};
    modify (set_timerId h).

Definition scheduleRefreshTimer (refreshEarlyTime : Z) (t : Readings) : Js unit :=
  let refreshEarlyTimeinMilliseconds := Z.max REFRESH_ATTEMPT_INTERVAL refreshEarlyTime * 1000 in
  scheduleRefreshToken refreshEarlyTimeinMilliseconds t.

Definition NOT_AUTHENTICATED : Value := VError "NOT_AUTHENTICATED".

(** Body of [async syncSessionAndScheduleTokenRefresh]. *)
Definition syncSessionAndScheduleTokenRefresh_body (isScheduleRefresh : bool) (t : Readings)
  : Js Value :=
  w ← get;
  match kc_data w with
  | Some d =>
      if authenticated d then
        syncSessionStorage;;
        when isScheduleRefresh (scheduleRefreshTimer 0 t);;
        mret (value_of_token (token d))
      else clearSession;; mret NOT_AUTHENTICATED
  | None => clearSession;; mret NOT_AUTHENTICATED
  end.

Definition syncSessionAndScheduleTokenRefresh (isScheduleRefresh : bool) (t : Readings)
  : World -> Promise * World :=
  async (v ← syncSessionAndScheduleTokenRefresh_body isScheduleRefresh t; resolved v).

Definition getUserInfo : Js KCUserProfile :=
  w ← get;
  when (match parsedToken w with
        | Some m => bool_decide (m = ∅)
        | None => true
        end)
    (modify (set_parsedToken (Some (decodeKCToken w))));;
  w ← get;
  let p := parsedToken w in
  mret {| lastName := claim p "lastname";
          firstName := claim p "firstname";
          email := claim p "email";
          roles := realm_roles p;
          keycloakGuid := claim p "sub";
          userName := claim p "username";
          fullName := claim p "name";
          loginSource := claim p "loginSource" |}.

Definition modify_store (f : AuthState -> AuthState) : Js unit :=
  modify (fun w => set_authStore (f <$> authStore w) w).

Definition setKCToken (v : Value) : Js unit :=
  modify_store (fun a => {| kcToken := v; storeIdToken := storeIdToken a;
    storeRefreshToken := storeRefreshToken a; kcGuid := kcGuid a;
    storeLoginSource := storeLoginSource a |}).
Definition setIDToken (v : Value) : Js unit :=
  modify_store (fun a => {| kcToken := kcToken a; storeIdToken := v;
    storeRefreshToken := storeRefreshToken a; kcGuid := kcGuid a;
    storeLoginSource := storeLoginSource a |}).
Definition setRefreshToken (v : Value) : Js unit :=
  modify_store (fun a => {| kcToken := kcToken a; storeIdToken := storeIdToken a;
    storeRefreshToken := v; kcGuid := kcGuid a;
    storeLoginSource := storeLoginSource a |}).
Definition setKCGuid (v : Value) : Js unit :=
  modify_store (fun a => {| kcToken := kcToken a; storeIdToken := storeIdToken a;
    storeRefreshToken := storeRefreshToken a; kcGuid := v;
    storeLoginSource := storeLoginSource a |}).
Definition setLoginSource (v : Value) : Js unit :=
  modify_store (fun a => {| kcToken := kcToken a; storeIdToken := storeIdToken a;
    storeRefreshToken := storeRefreshToken a; kcGuid := kcGuid a;
    storeLoginSource := v |}).

(** Modelled from the spec: [useAuthStore] comes from [stores], which is
    not part of the sources, and rests on the pinia library: it returns
    the store of the active pinia instance and throws when no instance is
    active.  [clearSession] asks [getActivePinia()] before it calls
    [useAuthStore]; [initSession] does not.  The message of the exception
    is the library's own and nothing here depends on it. *)
Definition NoActivePinia : Value :=
  VError "getActivePinia() was called but there was no active Pinia".

Definition useAuthStore : Js unit :=
  w ← get;
  match authStore w with
  | Some _ => mret tt
  | None => throw NoActivePinia
  end.

(** Body of [async initSession]; the store returned by [useAuthStore] is
    an object, so [if (authStore)] always holds; awaiting the
    synchronisation rethrows its rejection. *)
Definition initSession_body (t : Readings) : Js Promise :=
  useAuthStore;;
  w ← get;
  setKCToken (VStr (str_or_empty (kc_token w)));;
  setIDToken (VStr (str_or_empty (kc_idToken w)));;
  setRefreshToken (VStr (str_or_empty (kc_refreshToken w)));;
  userInfo ← getUserInfo;
  setKCGuid (or_else (keycloakGuid userInfo) (VStr ""));;
  setLoginSource (or_else (loginSource userInfo) (VStr ""));;
  syncSessionAndScheduleTokenRefresh_body true t;;
  resolved VUndefined.

Definition initSession (t : Readings) : World -> Promise * World :=
  async (initSession_body t).

(** The replacement of [this.kc.login] installed by [initializeKeyCloak]. *)
Definition patched_login (kcLogin : LoginFn) (hint : string) : LoginFn :=
  fun options =>
    match options with
    | Some o =>
        kcLogin (Some {| idpHint := Some hint;
                         loginRedirectUri := loginRedirectUri o;
                         prompt := prompt o |})
    | None => kcLogin None
    end.

Definition stored (k : SessionStorageKeys) (w : World) : option string :=
  str_or_undefined (ConfigHelper.getFromSession k (session w)).

Definition initializeKeyCloak_body (hint : string) : Js Promise :=
  clearSession;;
  w ← get;
  let token := stored KeyCloakToken w in
  r ← new_kc;
  modify (fun w =>
    set_heap (alter (fun k => {| config := config k; data := data k;
                                 login := patched_login (login k) hint |}) r (heap w)) w);;
  w ← get;
  let kcOptions :=
    {| onLoad := LoginRequired; checkLoginIframe := false; optTimeSkew := 0;
       optToken := token;
       optRefreshToken := stored KeyCloakRefreshToken w;
       optIdToken := stored KeyCloakIdToken w;
       pkceMethod := "S256" |} in
  p ← new_promise;
  call_provider r (CallInit kcOptions) (HInitializeKeyCloak p);;
  mret (Later p).

Definition initializeKeyCloak (hint : string) : World -> Promise * World :=
  async (initializeKeyCloak_body hint).

Definition logout_body (redirectUrl : option string) : Js Promise :=
  w ← get;
  match stored KeyCloakToken w with
  | Some token =>
      r ← new_kc;
      let kcOptions :=
        {| onLoad := LoginRequired; checkLoginIframe := false; optTimeSkew := 0;
           optToken := Some token;
           optRefreshToken := stored KeyCloakRefreshToken w;
           optIdToken := stored KeyCloakIdToken w;
           pkceMethod := "S256" |} in
      let siteminderLogoutUrl := stored SiteminderLogoutUrl w in
      modify (fun w => set_session (ConfigHelper.clearSession (session w)) w);;
      addToSession PreventStorageSync (js_string_of_bool true);;
      p ← new_promise;
      call_provider r (CallInit kcOptions) (HLogoutInit p redirectUrl siteminderLogoutUrl);;
      mret (Later p)
  | None => resolved VUndefined
  end.

Definition logout (redirectUrl : option string) : World -> Promise * World :=
  async (logout_body redirectUrl).

(** The redirect target computed in the callback of [logout]. *)
Definition logout_redirect (redirectUrl siteminderLogoutUrl : option string) : string :=
  let redirectUrl :=
    match str_or_undefined redirectUrl with
    | Some u => u
    | None => location_origin +:+ VUE_APP_PATH
    end in
  match siteminderLogoutUrl with
  | Some sm =>
      if includes "http" sm
      then sm +:+ "?returl=" +:+ collapse_slashes 0 false redirectUrl +:+ "&retnow=1"
      else redirectUrl
  | None => redirectUrl
  end.

Definition refreshToken_body (isForceRefresh : bool) (now : Z) : Js Promise :=
  w ← get;
  if negb isForceRefresh && (negb (num_truthy (kc_exp w)) || negb (num_truthy (kc_timeSkew w)))
  then resolved VUndefined
  else
    let tokenExpiresIn :=
      if isForceRefresh then -1
      else default 0 (kc_exp w) - ceil_seconds now + default 0 (kc_timeSkew w) + 100 in
    match kc w with
    | Some r =>
        call_provider r (CallUpdateToken tokenExpiresIn) HRefreshToken;;
        resolved VUndefined
    | None => resolved (VError "Could not refresh Token:No Kc Instance")
    end.

Definition refreshToken (isForceRefresh : bool) (now : Z) : World -> Promise * World :=
  async (refreshToken_body isForceRefresh now).

Definition TypeError_includes : Value :=
  VError "TypeError: Cannot read properties of undefined (reading 'includes')".

(** [userInfo.roles.includes(role)] *)
Definition roles_include (userInfo : KCUserProfile) (role : string) : Js bool :=
  match roles userInfo with
  | Some rs => mret (bool_decide (role ∈ rs))
  | None => throw TypeError_includes
  end.

(** [array.some(callback)] *)
Fixpoint some (l : list string) (callback : string -> Js bool) : Js bool :=
  match l with
  | [] => mret false
  | x :: l' => b ← callback x; if b : bool then mret true else some l' callback
  end.

Definition verifyRoles (allowedRoles disabledRoles : option (list string)) : Js bool :=
  match allowedRoles, disabledRoles with
  | None, None => mret true
  | Some allowed, _ =>
      userInfo ← getUserInfo;
      some allowed (roles_include userInfo)
  | None, Some disabled =>
      userInfo ← getUserInfo;
      b ← some disabled (roles_include userInfo);
      mret (negb b)
  end.

Definition initializeToken_body (isScheduleRefresh forceLogin : bool) : Js Promise :=
  w ← get;
  let kcOptions :=
    {| onLoad := if forceLogin then LoginRequired else CheckSso;
       checkLoginIframe := false; optTimeSkew := 0;
       optToken := stored KeyCloakToken w;
       optRefreshToken := stored KeyCloakRefreshToken w;
       optIdToken := stored KeyCloakIdToken w;
       pkceMethod := "S256" |} in
  p ← new_promise;
  r ← new_kc;
  addToSession SessionSynced (js_string_of_bool false);;
  call_provider r (CallInit kcOptions) (HInitializeToken p isScheduleRefresh);;
  mret (Later p).

Definition initializeToken (isScheduleRefresh forceLogin : bool) : World -> Promise * World :=
  async (initializeToken_body isScheduleRefresh forceLogin).

(** ** Callbacks and the event loop *)

(** A call whose promise nobody looks at. *)
Definition forget (m : World -> Promise * World) : Js unit :=
  fun w => (Normal tt, snd (m w)).

(** [resolve(promise)]: the outcome of an [async] call settles [p]. *)
Definition resolve_with (p : nat) (body : Js Value) : Js unit := fun w =>
  match body w with
  | (Normal v, w') => resolve p v w'
  | (Thrown e, w') => reject p e w'
  end.

Definition CouldNotRefresh : Value := VError "Could not refresh Token".

(** The callbacks of a provider call, run on its settlement; the result
    is the settlement of the chain's own promise. *)
Definition handle (h : Handler) (s : Settled) (t : Readings) : Js Value :=
  match h with
  | HInitializeKeyCloak p => returns_nothing (settle p s)
  | HLogoutInit p redirectUrl siteminderLogoutUrl =>
      then_catch
        (fun authenticated => returns_nothing (
           when (negb (truthy authenticated)) (resolve p VUndefined);;
           w ← get;
           match kc w with
           | Some r =>
               call_provider r
                 (CallLogout (logout_redirect redirectUrl siteminderLogoutUrl))
                 (HLogoutDone p)
           | None => mret tt
           end))
        (fun error => returns_nothing (reject p error)) s
  | HLogoutDone p =>
      then_catch (fun _ => returns_nothing (resolve p VUndefined))
                 (fun error => returns_nothing (reject p error)) s
  | HRefreshToken =>
      then_catch
        (fun refreshed => returns_nothing (when (truthy refreshed) (forget (initSession t))))
        (fun _ => clearSession;; mret CouldNotRefresh) s
  | HInitializeToken p isScheduleRefresh =>
      then_catch
        (fun authenticated => returns_nothing (
           resolve_with p (syncSessionAndScheduleTokenRefresh_body isScheduleRefresh t)))
        (fun error => returns_nothing (
           reject p (VError ("Could not Initialize KC" +:+ to_string error)))) s
  | HScheduledRefresh refreshEarlyTimeinMilliseconds =>
      then_catch
        (fun refreshed => returns_nothing (
           when (truthy refreshed)
             (syncSessionStorage;;
              scheduleRefreshToken refreshEarlyTimeinMilliseconds t)))
        (fun _ => returns_nothing (w ← get; clearTimeout (timerId w))) s
  end.

(** The callback given to [setTimeout]. *)
Definition timer_callback (tm : Timer) : Js unit :=
  modify (fun w => set_counter (counter w + 1) w);;
  w ← get;
  match kc w with
  | Some r => call_provider r (CallUpdateToken (-1)) (HScheduledRefresh (tmEarly tm))
  | None => throw (VError "TypeError: Cannot read properties of undefined (reading 'updateToken')")
  end.

(** The public methods, as the application calls them. *)
Inductive Operation :=
| OpSetKeycloakConfigUrl (url : string)
| OpInitializeKeyCloak (hint : string)
| OpInitSession (t : Readings)
| OpGetUserInfo
| OpLogout (redirectUrl : option string)
| OpRefreshToken (isForceRefresh : bool) (now : Z)
| OpVerifyRoles (allowedRoles disabledRoles : option (list string))
| OpInitializeToken (isScheduleRefresh forceLogin : bool)
| OpSyncSessionAndScheduleTokenRefresh (isScheduleRefresh : bool) (t : Readings)
| OpScheduleRefreshTimer (refreshEarlyTime : Z) (t : Readings).

Definition invoke (op : Operation) (w : World) : World :=
  match op with
  | OpSetKeycloakConfigUrl url => snd (async (setKeycloakConfigUrl url) w)
  | OpInitializeKeyCloak hint => snd (initializeKeyCloak hint w)
  | OpInitSession t => snd (initSession t w)
  | OpGetUserInfo => snd (getUserInfo w)
  | OpLogout redirectUrl => snd (logout redirectUrl w)
  | OpRefreshToken isForceRefresh now => snd (refreshToken isForceRefresh now w)
  | OpVerifyRoles allowedRoles disabledRoles => snd (verifyRoles allowedRoles disabledRoles w)
  | OpInitializeToken isScheduleRefresh forceLogin =>
      snd (initializeToken isScheduleRefresh forceLogin w)
  | OpSyncSessionAndScheduleTokenRefresh isScheduleRefresh t =>
      snd (syncSessionAndScheduleTokenRefresh isScheduleRefresh t w)
  | OpScheduleRefreshTimer refreshEarlyTime t => snd (scheduleRefreshTimer refreshEarlyTime t w)
  end.

(** What happens to the service: the application calls a method, a
    pending timer expires, or a provider call completes, the library
    leaving its client in state [d].  The promise of the callback chain
    of a provider call is held by nobody, so its settlement is dropped. *)
Inductive Event :=
| Invoke (op : Operation)
| Fire (h : Z)
| Settle (rid : nat) (s : Settled) (d : KeycloakData) (t : Readings).

Definition set_data (d : KeycloakData) (k : KeycloakInstance) : KeycloakInstance :=
  {| config := config k; data := d; login := login k |}.

Definition step (ev : Event) (w : World) : World :=
  match ev with
  | Invoke op => invoke op w
  | Fire h =>
      if 1 <=? h then
        match timers w !! Z.to_nat (h - 1) with
        | Some (Some tm) =>
            snd (timer_callback tm
                   (set_timers (<[Z.to_nat (h - 1) := None]> (timers w)) w))
        | _ => w
        end
      else w
  | Settle rid s d t =>
      match requests w !! rid with
      | Some (Some rq) =>
          snd (handle (rqHandler rq) s t
                 (set_requests (<[rid := None]> (requests w))
                    (set_heap (alter (set_data d) (rqKc rq) (heap w)) w)))
      | _ => w
      end
  end.

Definition run (evs : list Event) (w : World) : World :=
  foldl (fun w ev => step ev w) w evs.

End Service.
End KeyCloakService.

(** * Specification-side definitions *)

(** A computation that keeps a property of the world, whether it returns
    or throws. *)
Definition preserves {A} (P : World -> Prop) (m : Js A) : Prop :=
  forall w, P w -> P (snd (m w)).

(** The validity margin [expiry − now + clockSkew] of a token, in seconds:
    defined once the token is parsed, carries an [exp], and the clock skew
    is known. *)
Definition margin (parsed : option KeycloakTokenParsed) (skew : option Z) (now : Z)
  : option Z :=
  p ← parsed; e ← exp p; s ← skew; Some (e - ceil_seconds now + s).

(** [minValidity] as [refreshToken] computes it when it reaches the
    provider. *)
Definition minValidity (isForceRefresh : bool) (now : Z) (w : World) : Z :=
  if isForceRefresh then -1
  else default 0 (kc_exp w) - ceil_seconds now + default 0 (kc_timeSkew w) + 100.

(** Client [r] exists and its [login] is [f]. *)
Definition has_login (r : nat) (f : LoginFn) (w : World) : Prop :=
  exists k, heap w !! r = Some k /\ login k = f.

(** ** Synchronisation *)

(** Do the guards of [scheduleRefreshToken] pass? *)
Definition can_schedule (w : World) (t : Readings) : bool :=
  negb (negative (KeyCloakService.refreshTokenExpiresIn w (now1 t)))
  && (0 <=? KeyCloakService.expiresIn w (now2 t)).

(** A token is written under its key when it is present and not empty. *)
Definition persist (k : SessionStorageKeys) (o : option string) (s : Storage) : Storage :=
  match str_or_undefined o with
  | Some x => <[k := x]> s
  | None => s
  end.

(** Session storage after [syncSessionStorage] for a client in state [d]. *)
Definition persisted (d : KeycloakData) (s : Storage) : Storage :=
  <[SessionSynced := "true"]>
    (persist KeyCloakIdToken (idToken d)
       (persist KeyCloakRefreshToken (refreshToken d)
          (persist KeyCloakToken (token d) s))).

(** Session storage and auth store after [clearSession]. *)
Definition without_tokens (s : Storage) : Storage :=
  delete KeyCloakRefreshToken (delete KeyCloakIdToken (delete KeyCloakToken s)).

Definition cleared (w : World) : World :=
  set_session (without_tokens (session w))
    (match authStore w with
     | Some _ => set_authStore (Some empty_AuthState) w
     | None => w
     end).

(** ** Logout *)

(** The options [logout] initialises its client with. *)
Definition logout_options (token : string) (w : World) : KeycloakInitOptions :=
  {| onLoad := LoginRequired; checkLoginIframe := false; optTimeSkew := 0;
     optToken := Some token;
     optRefreshToken := KeyCloakService.stored KeyCloakRefreshToken w;
     optIdToken := KeyCloakService.stored KeyCloakIdToken w;
     pkceMethod := "S256" |}.

(** The [init] call [logout] issues, and the [logout] call that follows
    it; [p] is the promise handed to the caller. *)
Definition logout_init_request (redirectUrl : option string) (token : string) (w : World)
  : Request :=
  {| rqKc := length (heap w);
     rqCall := CallInit (logout_options token w);
     rqHandler := HLogoutInit (length (promises w)) redirectUrl
                    (KeyCloakService.stored SiteminderLogoutUrl w) |}.

Definition logout_request (location_origin VUE_APP_PATH : string)
    (redirectUrl : option string) (w : World) : Request :=
  {| rqKc := length (heap w);
     rqCall := CallLogout
                 (KeyCloakService.logout_redirect location_origin VUE_APP_PATH redirectUrl
                    (KeyCloakService.stored SiteminderLogoutUrl w));
     rqHandler := HLogoutDone (length (promises w)) |}.

(** The world when [logout] returns, a token being stored. *)
Definition logout_started (redirectUrl : option string) (token : string) (w : World)
  : World :=
  set_requests (requests w ++ [Some (logout_init_request redirectUrl token w)])
    (set_promises (promises w ++ [None])
       (set_session {[PreventStorageSync := "true"]}
          (set_kc (Some (length (heap w)))
             (set_heap (heap w ++ [new_Keycloak (keycloakConfigUrl w)]) w)))).

(** ** The refresh timer chain *)

(** A provider call issued by the callback of a refresh timer. *)
Definition scheduled_refresh (rq : Request) : Prop :=
  exists early, rqHandler rq = HScheduledRefresh early.

(** One timer chain at most is alive: what is armed or in flight is one
    refresh timer, or one forced refresh issued by such a timer. *)
Definition one_chain (w : World) : Prop :=
  Forall scheduled_refresh (in_flight w)
  /\ (length (pending_timers w) + length (in_flight w) <= 1)%nat.

(** A timer expires or a provider call completes: the application calls
    no method. *)
Definition environment_event (ev : KeyCloakService.Event) : Prop :=
  match ev with
  | KeyCloakService.Invoke _ => False
  | _ => True
  end.

(** A provider call whose callbacks may arm a refresh timer: the forced
    refresh of a timer, an on-demand refresh (its callback runs
    [initSession]) and the [init] call of an [initializeToken] that was
    asked to schedule. *)
Definition may_arm (rq : Request) : bool :=
  match rqHandler rq with
  | HScheduledRefresh _ => true
  | HRefreshToken => true
  | HInitializeToken _ isScheduleRefresh => isScheduleRefresh
  | _ => false
  end.

(** The refresh timers that are pending, together with the outstanding
    provider calls that may arm one. *)
Definition chains (w : World) : nat :=
  (length (pending_timers w) + length (List.filter may_arm (in_flight w)))%nat.

Definition within (n : nat) (w : World) : Prop := (chains w <= n)%nat.

(** The methods that schedule a refresh, at once or on the answer to the
    provider call they issue. *)
Definition schedules (op : KeyCloakService.Operation) : bool :=
  match op with
  | KeyCloakService.OpInitSession _ => true
  | KeyCloakService.OpRefreshToken _ _ => true
  | KeyCloakService.OpScheduleRefreshTimer _ _ => true
  | KeyCloakService.OpInitializeToken isScheduleRefresh _ => isScheduleRefresh
  | KeyCloakService.OpSyncSessionAndScheduleTokenRefresh isScheduleRefresh _ =>
      isScheduleRefresh
  | _ => false
  end.

(** From a state satisfying [P], the computation ends in a state
    satisfying [Q], whether it returns or throws. *)
Definition leads {A} (P : World -> Prop) (m : Js A) (Q : World -> Prop) : Prop :=
  forall w, P w -> Q (snd (m w)).

Section Runs.
Variable decodeJwt : string -> gmap string Value.
Variables location_origin VUE_APP_PATH : string.

(** A run in which the application starts a method that schedules a
    refresh only while no refresh timer is pending and no provider call
    that may arm one is outstanding.  Timers, provider answers and the
    other methods come as they please. *)
Fixpoint schedules_when_idle (evs : list KeyCloakService.Event) (w : World) : Prop :=
  match evs with
  | [] => True
  | ev :: evs' =>
      match ev with
      | KeyCloakService.Invoke op => schedules op = true -> chains w = 0%nat
      | _ => True
      end
      /\ schedules_when_idle evs'
           (KeyCloakService.step decodeJwt location_origin VUE_APP_PATH ev w)
  end.

End Runs.

(** ** Sample worlds *)

Module Sample.

(** A toy decoder: token A belongs to alice (staff), token B to bob
    (admin); anything else carries no claims. *)
Definition decodeJwt (s : string) : gmap string Value :=
  if String.eqb s "A" then
    {[ "sub" := VStr "alice"; "realm_access" := VRealm (Some ["staff"]) ]}
  else if String.eqb s "B" then
    {[ "sub" := VStr "bob"; "realm_access" := VRealm (Some ["admin"]) ]}
  else ∅.

Definition origin : string := "https://app.example".
Definition app_path : string := "/app".

(** A service that has done nothing yet, in a fresh browser session. *)
Definition blank : World :=
  {| kc := None; parsedToken := None; counter := 0; timerId := 0;
     keycloakConfigUrl := "/config/kc/keycloak.json"; heap := [];
     session := ∅; authStore := Some empty_AuthState;
     timers := []; requests := []; promises := [] |}.

(** The clock reads 1000 s. *)
Definition t0 : Readings := {| now1 := 1000000; now2 := 1000000 |}.

(** Access token A valid for 1000 s more, refresh token for 4000 s. *)
Definition tokens_A : KeycloakData :=
  {| authenticated := true; token := Some "A"; refreshToken := Some "RA";
     idToken := Some "IA"; tokenParsed := Some {| exp := Some 2000 |};
     refreshTokenParsed := Some {| exp := Some 5000 |}; timeSkew := Some 0 |}.

(** The same session after a refresh: access token B. *)
Definition tokens_B : KeycloakData :=
  {| authenticated := true; token := Some "B"; refreshToken := Some "RB";
     idToken := Some "IB"; tokenParsed := Some {| exp := Some 3000 |};
     refreshTokenParsed := Some {| exp := Some 6000 |}; timeSkew := Some 0 |}.

(** Access token expired 5 s ago. *)
Definition access_expired : KeycloakData :=
  {| authenticated := true; token := Some "A"; refreshToken := Some "RA";
     idToken := Some "IA"; tokenParsed := Some {| exp := Some 995 |};
     refreshTokenParsed := Some {| exp := Some 5000 |}; timeSkew := Some 0 |}.

(** Authenticated, but the refresh token expired 500 s ago. *)
Definition refresh_expired : KeycloakData :=
  {| authenticated := true; token := Some "A"; refreshToken := Some "RA";
     idToken := Some "IA"; tokenParsed := Some {| exp := Some 2000 |};
     refreshTokenParsed := Some {| exp := Some 500 |}; timeSkew := Some 0 |}.

(** Clocks that differ by 3 s. *)
Definition tokens_skewed : KeycloakData :=
  {| authenticated := true; token := Some "A"; refreshToken := Some "RA";
     idToken := Some "IA"; tokenParsed := Some {| exp := Some 2000 |};
     refreshTokenParsed := Some {| exp := Some 5000 |}; timeSkew := Some 3 |}.

Definition signed_out : KeycloakData :=
  {| authenticated := false; token := None; refreshToken := None;
     idToken := None; tokenParsed := None; refreshTokenParsed := None;
     timeSkew := Some 0 |}.

Definition step := KeyCloakService.step decodeJwt origin app_path.
Definition run := KeyCloakService.run decodeJwt origin app_path.

(** [initializeToken(isScheduleRefresh)] on a blank service, answered by
    the provider with client state [d]. *)
Definition after_init (isScheduleRefresh : bool) (d : KeycloakData) : World :=
  run [KeyCloakService.Invoke (KeyCloakService.OpInitializeToken isScheduleRefresh false);
       KeyCloakService.Settle 0 (Fulfilled (VBool (authenticated d))) d t0] blank.

(** Signed in with token A, one refresh timer armed. *)
Definition signed_in : World := after_init true tokens_A.

End Sample.

(** ** Claims and roles *)

(** The profile [getUserInfo] builds from a decoded token. *)
Definition profile_of (p : option (gmap string Value)) : KCUserProfile :=
  {| lastName := claim p "lastname";
     firstName := claim p "firstname";
     email := claim p "email";
     roles := realm_roles p;
     keycloakGuid := claim p "sub";
     userName := claim p "username";
     fullName := claim p "name";
     loginSource := claim p "loginSource" |}.

(** Is the cache of [getUserInfo] absent or empty? *)
Definition cache_empty (w : World) : bool :=
  match parsedToken w with
  | Some m => bool_decide (m = ∅)
  | None => true
  end.

(** The decoded token [getUserInfo] works with at [w]. *)
Definition claims_in_use (decodeJwt : string -> gmap string Value) (w : World)
  : option (gmap string Value) :=
  if cache_empty w then Some (KeyCloakService.decodeKCToken decodeJwt w)
  else parsedToken w.

(** The roles of the current user, as [verifyRoles] sees them; [None]
    when the decoded token carries no roles array. *)
Definition user_roles (decodeJwt : string -> gmap string Value) (w : World)
  : option (list string) :=
  realm_roles (claims_in_use decodeJwt w).

(** Two role lists intersect. *)
Definition intersect (xs ys : list string) : Prop :=
  exists role, role ∈ xs /\ role ∈ ys.

(** ** Reading back what was synchronised *)

(** What [getFromSession(k) || undefined] yields after a synchronisation
    that had [tok] to offer for key [k]: the token when it is present and
    not empty, otherwise whatever was stored before. *)
Definition read_back (tok old : option string) : option string :=
  match str_or_undefined tok with
  | Some x => Some x
  | None => old
  end.

(** The options of the [init] call issued by [initializeKeyCloak]. *)
Definition initializeKeyCloak_options : KeycloakInitOptions :=
  {| onLoad := LoginRequired; checkLoginIframe := false; optTimeSkew := 0;
     optToken := None; optRefreshToken := None; optIdToken := None;
     pkceMethod := "S256" |}.

(** The options of the [init] call issued by [initializeToken]. *)
Definition initializeToken_options (forceLogin : bool) (w : World) : KeycloakInitOptions :=
  {| onLoad := if forceLogin then LoginRequired else CheckSso;
     checkLoginIframe := false; optTimeSkew := 0;
     optToken := KeyCloakService.stored KeyCloakToken w;
     optRefreshToken := KeyCloakService.stored KeyCloakRefreshToken w;
     optIdToken := KeyCloakService.stored KeyCloakIdToken w;
     pkceMethod := "S256" |}.

(** The world when [initializeToken] returns. *)
Definition initializeToken_started (isScheduleRefresh forceLogin : bool) (w : World) : World :=
  set_requests
    (requests w ++ [Some {| rqKc := length (heap w);
                            rqCall := CallInit (initializeToken_options forceLogin w);
                            rqHandler := HInitializeToken (length (promises w))
                                           isScheduleRefresh |}])
    (set_session (<[SessionSynced := "false"]> (session w))
       (set_kc (Some (length (heap w)))
          (set_heap (heap w ++ [new_Keycloak (keycloakConfigUrl w)])
             (set_promises (promises w ++ [None]) w)))).

(** ** The expiry guards, by client state *)

(** A world that holds nothing but one client in state [d]. *)
Definition client_world (d : KeycloakData) : World :=
  {| kc := Some 0%nat; parsedToken := None; counter := 0; timerId := 0;
     keycloakConfigUrl := "";
     heap := [{| config := ""; data := d; login := kcLogin |}];
     session := ∅; authStore := None; timers := []; requests := [];
     promises := [] |}.

(** Do the guards of [scheduleRefreshToken] pass for a client in state
    [d], and what is [expiresIn] then? *)
Definition guards_pass (d : KeycloakData) (t : Readings) : bool :=
  can_schedule (client_world d) t.

Definition access_margin (d : KeycloakData) (now : Z) : Z :=
  KeyCloakService.expiresIn (client_world d) now.

(** The world after a successful [scheduleRefreshToken]. *)
Definition armed (delay early : Z) (w : World) : World :=
  set_timerId (Z.of_nat (length (timers w)) + 1)
    (set_timers (timers w ++ [Some {| tmDelay := delay; tmEarly := early |}]) w).

(** How the promise of [initializeToken] settles once the provider has
    fulfilled the [init] call and left the client in state [d]. *)
Definition initializeToken_outcome (isScheduleRefresh : bool) (d : KeycloakData)
    (t : Readings) : Settled :=
  if authenticated d then
    if isScheduleRefresh && negb (guards_pass d t)
    then Rejected (VError "Refresh Token Expired. No more token refreshes")
    else Fulfilled (value_of_token (token d))
  else Fulfilled (VError "NOT_AUTHENTICATED").

(** ** Clients and timers *)

(** Whenever a refresh timer is pending, the service has a client. *)
Definition timers_have_client (w : World) : Prop :=
  kc w = None -> pending_timers w = [].

(** The service has a client, and the reference to it is valid. *)
Definition has_client (w : World) : Prop :=
  exists r k, kc w = Some r /\ heap w !! r = Some k.

(** ** Session storage after [initSession] *)

(** Session storage holds the tokens of a client in state [d], those that
    are present and not empty, and is marked as synced. *)
Definition holds_tokens (d : KeycloakData) (s : Storage) : Prop :=
  s !! SessionSynced = Some "true"
  /\ (forall x, str_or_undefined (token d) = Some x -> s !! KeyCloakToken = Some x)
  /\ (forall x, str_or_undefined (refreshToken d) = Some x ->
        s !! KeyCloakRefreshToken = Some x)
  /\ (forall x, str_or_undefined (idToken d) = Some x -> s !! KeyCloakIdToken = Some x).

(** ** Rejection reasons *)


(** ** Strings *)

(** A string without its slashes. *)
Fixpoint without_slashes (s : string) : string :=
  match s with
  | EmptyString => EmptyString
  | String c s' =>
      if Ascii.eqb c "/"%char then without_slashes s' else String c (without_slashes s')
  end.

(** * Properties *)

(** ** Reasoning about [Js] computations *)

Ltac js_unfold :=
  unfold mbind, mret, Js_bind, Js_ret, get, modify, throw, when, resolved,
    returns_nothing, async in *.

(** Runs a computation made of the primitives as far as it reduces. *)
Ltac js_run :=
  repeat (progress (js_unfold;
                    unfold then_catch, resolve, reject, settle, call_provider,
                      setTimeout, clearTimeout, new_promise, new_kc;
                    simpl)).

Lemma bind_normal {A B} (m : Js A) (f : A -> Js B) w a w' :
  m w = (Normal a, w') -> (m ≫= f) w = f a w'.
Proof. intros H. unfold mbind, Js_bind. by rewrite H. Qed.

Lemma preserves_ret {A} P (a : A) : preserves P (mret a).
Proof. intros w H. exact H. Qed.

Lemma preserves_throw {A} P e : preserves P (@throw A e).
Proof. intros w H. exact H. Qed.

Lemma preserves_get P : preserves P get.
Proof. intros w H. exact H. Qed.

Lemma preserves_bind {A B} P (m : Js A) (f : A -> Js B) :
  preserves P m -> (forall a, preserves P (f a)) -> preserves P (m ≫= f).
Proof.
  intros Hm Hf w H. unfold mbind, Js_bind.
  specialize (Hm w H). destruct (m w) as [[a|e] w']; simpl in *.
  - by apply Hf.
  - done.
Qed.

Lemma preserves_modify P (f : World -> World) :
  (forall w, P w -> P (f w)) -> preserves P (modify f).
Proof. intros Hf w H. simpl. by apply Hf. Qed.

Lemma preserves_when P b (m : Js unit) : preserves P m -> preserves P (when b m).
Proof. intros Hm. destruct b; [done | apply preserves_ret]. Qed.

Lemma preserves_then_catch P (on_ok on_err : Value -> Js Value) s :
  (forall v, preserves P (on_ok v)) -> (forall e, preserves P (on_err e)) ->
  preserves P (then_catch on_ok on_err s).
Proof.
  intros Hok Herr w H. destruct s as [v|e]; simpl.
  - specialize (Hok v w H). destruct (on_ok v w) as [[a|e] w']; simpl in *; [done|].
    by apply Herr.
  - by apply Herr.
Qed.

Lemma preserves_returns_nothing P (m : Js unit) :
  preserves P m -> preserves P (returns_nothing m).
Proof. intros H. apply preserves_bind; [done | intros; apply preserves_ret]. Qed.

Lemma preserves_async P (body : Js Promise) w :
  preserves P body -> P w -> P (snd (async body w)).
Proof.
  intros Hb H. unfold async. specialize (Hb w H).
  by destruct (body w) as [[p|e] w'].
Qed.

(** ** Scheduling against expired tokens *)

Lemma refreshTokenExpiresIn_margin w d now m :
  kc_data w = Some d ->
  margin (refreshTokenParsed d) (timeSkew d) now = Some m ->
  KeyCloakService.refreshTokenExpiresIn w now = Some m.
Proof.
  intros Hd Hm. unfold KeyCloakService.refreshTokenExpiresIn, margin in *.
  rewrite Hd. destruct (refreshTokenParsed d) as [p|]; simpl in Hm; [|done].
  destruct (exp p) as [e|]; simpl in Hm; [|done].
  destruct (timeSkew d) as [s|]; simpl in Hm; [|done].
  done.
Qed.

Lemma expiresIn_margin w d now m :
  kc_data w = Some d ->
  margin (tokenParsed d) (timeSkew d) now = Some m -> m < 0 ->
  KeyCloakService.expiresIn w now < 0.
Proof.
  intros Hd Hm Hneg. unfold KeyCloakService.expiresIn, margin in *.
  rewrite Hd. destruct (tokenParsed d) as [p|]; simpl in Hm; [|done].
  destruct (exp p) as [e|]; simpl in Hm; [|done].
  destruct (timeSkew d) as [s|]; simpl in Hm; [|done].
  injection Hm as <-. destruct (e =? 0); lia.
Qed.

Lemma scheduleRefreshToken_throws ms t w :
  negative (KeyCloakService.refreshTokenExpiresIn w (now1 t)) = true
  \/ KeyCloakService.expiresIn w (now2 t) < 0 ->
  KeyCloakService.scheduleRefreshToken ms t w
  = (Thrown KeyCloakService.RefreshTokenExpired, w).
Proof.
  intros H. unfold KeyCloakService.scheduleRefreshToken. js_unfold.
  destruct (negative _) eqn:Hn; [done|].
  destruct H as [H|H]; [done|].
  apply Z.ltb_lt in H. by rewrite H.
Qed.

(** When the guards pass, exactly one timer is armed, in a fresh slot, and
    its handle is stored; nothing that was pending is cancelled. *)
Lemma scheduleRefreshToken_arms ms t w :
  negative (KeyCloakService.refreshTokenExpiresIn w (now1 t)) = false ->
  0 <= KeyCloakService.expiresIn w (now2 t) ->
  KeyCloakService.scheduleRefreshToken ms t w
  = (Normal tt,
     set_timerId (Z.of_nat (length (timers w)) + 1)
       (set_timers
          (timers w ++ [Some {| tmDelay := KeyCloakService.expiresIn w (now2 t) * 1000 - ms;
                                tmEarly := ms |}]) w)).
Proof.
  intros Hn He. unfold KeyCloakService.scheduleRefreshToken. js_unfold.
  rewrite Hn. apply Z.ltb_ge in He. rewrite He. reflexivity.
Qed.

(** C2: a call of the refresh-scheduling operation ([scheduleRefreshTimer],
    and [scheduleRefreshToken] behind it) for which the refresh-token
    margin [refreshTokenExpiry − now + clockSkew] or the access-token margin
    [tokenExpiry − now + clockSkew] is negative throws
    'Refresh Token Expired. No more token refreshes' and leaves the world
    as it was: no timer is armed. *)
Theorem schedule_refresh_expired (refreshEarlyTime ms : Z) (t : Readings) (w : World)
    (d : KeycloakData) (m : Z) :
  kc_data w = Some d ->
  margin (refreshTokenParsed d) (timeSkew d) (now1 t) = Some m
  \/ margin (tokenParsed d) (timeSkew d) (now2 t) = Some m ->
  m < 0 ->
  KeyCloakService.scheduleRefreshTimer refreshEarlyTime t w
  = (Thrown (VError "Refresh Token Expired. No more token refreshes"), w)
  /\ KeyCloakService.scheduleRefreshToken ms t w
     = (Thrown (VError "Refresh Token Expired. No more token refreshes"), w)
  /\ pending_timers (snd (KeyCloakService.scheduleRefreshTimer refreshEarlyTime t w))
     = pending_timers w.
Proof.
  intros Hd Hm Hneg.
  assert (Hguard : negative (KeyCloakService.refreshTokenExpiresIn w (now1 t)) = true
                   \/ KeyCloakService.expiresIn w (now2 t) < 0).
  { destruct Hm as [Hm|Hm].
    - left. rewrite (refreshTokenExpiresIn_margin _ _ _ _ Hd Hm). simpl.
      by apply Z.ltb_lt.
    - right. by eapply expiresIn_margin. }
  unfold KeyCloakService.scheduleRefreshTimer.
  rewrite !(scheduleRefreshToken_throws _ _ _ Hguard). done.
Qed.

Lemma schedule_refresh_expired_witness :
  KeyCloakService.scheduleRefreshTimer 0 Sample.t0 (Sample.after_init false Sample.access_expired)
  = (Thrown (VError "Refresh Token Expired. No more token refreshes"),
     Sample.after_init false Sample.access_expired)
  /\ KeyCloakService.scheduleRefreshToken 10000 Sample.t0
       (Sample.after_init false Sample.access_expired)
     = (Thrown (VError "Refresh Token Expired. No more token refreshes"),
        Sample.after_init false Sample.access_expired)
  /\ pending_timers
       (snd (KeyCloakService.scheduleRefreshTimer 0 Sample.t0
               (Sample.after_init false Sample.access_expired)))
     = pending_timers (Sample.after_init false Sample.access_expired).
Proof.
  apply (schedule_refresh_expired 0 10000 Sample.t0
           (Sample.after_init false Sample.access_expired) Sample.access_expired (-5)).
  - reflexivity.
  - right. reflexivity.
  - reflexivity.
Defined.

Lemma preserves_forget P (m : World -> Promise * World) :
  (forall w, P w -> P (snd (m w))) -> preserves P (KeyCloakService.forget m).
Proof. intros H w Hw. simpl. by apply H. Qed.

Lemma preserves_async_forget P (body : Js Promise) :
  preserves P body -> preserves P (KeyCloakService.forget (async body)).
Proof. intros H. apply preserves_forget. intros w Hw. by apply preserves_async. Qed.

Lemma preserves_resolve_with P p (body : Js Value) :
  preserves P body ->
  (forall s, preserves P (settle p s)) ->
  preserves P (KeyCloakService.resolve_with p body).
Proof.
  intros Hb Hs w Hw. unfold KeyCloakService.resolve_with.
  specialize (Hb w Hw). destruct (body w) as [[v|e] w']; simpl in *.
  - by apply (Hs (Fulfilled v)).
  - by apply (Hs (Rejected e)).
Qed.

Lemma preserves_some P l (f : string -> Js bool) :
  (forall x, preserves P (f x)) -> preserves P (KeyCloakService.some l f).
Proof.
  intros Hf. induction l as [|x l IH]; simpl.
  - apply preserves_ret.
  - apply preserves_bind; [apply Hf|]. intros []; [apply preserves_ret | apply IH].
Qed.

(** Decomposes a [preserves] goal along the structure of the method;
    [leaf] closes what is left: a primitive, or a goal about a setter. *)
Ltac pres_with leaf :=
  first
    [ solve [leaf]
    | apply preserves_ret
    | apply preserves_throw
    | apply preserves_get
    | apply preserves_when; pres_with leaf
    | apply preserves_returns_nothing; pres_with leaf
    | apply preserves_async_forget; pres_with leaf
    | apply preserves_resolve_with; [pres_with leaf | intros ?; pres_with leaf]
    | apply preserves_some; intros ?; pres_with leaf
    | apply preserves_bind; [pres_with leaf | intros ?; pres_with leaf]
    | apply preserves_then_catch; intros ?; pres_with leaf
    | apply preserves_modify; intros ? ?; simpl; solve [leaf]
    | progress cbv beta iota zeta; pres_with leaf
    | match goal with
      | |- preserves _ (match ?x with _ => _ end) => destruct x; pres_with leaf
      end
    | progress unfold
        KeyCloakService.clearSession, KeyCloakService.addToSession,
        KeyCloakService.syncSessionStorage, KeyCloakService.scheduleRefreshToken,
        KeyCloakService.scheduleRefreshTimer,
        KeyCloakService.syncSessionAndScheduleTokenRefresh_body,
        KeyCloakService.getUserInfo, KeyCloakService.initSession,
        KeyCloakService.initSession_body, KeyCloakService.useAuthStore,
        KeyCloakService.setKCToken,
        KeyCloakService.setIDToken, KeyCloakService.setRefreshToken,
        KeyCloakService.setKCGuid, KeyCloakService.setLoginSource,
        KeyCloakService.modify_store, KeyCloakService.initializeKeyCloak_body,
        KeyCloakService.logout_body, KeyCloakService.refreshToken_body,
        KeyCloakService.verifyRoles, KeyCloakService.roles_include,
        KeyCloakService.initializeToken_body, KeyCloakService.handle,
        KeyCloakService.timer_callback, KeyCloakService.setKeycloakConfigUrl,
        resolve, reject, settle, call_provider, clearTimeout, resolved;
      pres_with leaf ].

(** Leaf for a property that reads one field of the world. *)
Ltac field_leaf := repeat case_match; simpl in *; done.

(** ** On-demand refresh *)

Lemma refreshToken_noop now w :
  num_truthy (kc_exp w) = false \/ num_truthy (kc_timeSkew w) = false ->
  KeyCloakService.refreshToken false now w = (Now (Fulfilled VUndefined), w).
Proof.
  intros H. unfold KeyCloakService.refreshToken, KeyCloakService.refreshToken_body.
  js_unfold. destruct H as [-> | ->]; simpl; [done|].
  by rewrite orb_true_r.
Qed.

Lemma refreshToken_reaches_provider isForceRefresh now w r :
  kc w = Some r ->
  isForceRefresh = true
  \/ (num_truthy (kc_exp w) = true /\ num_truthy (kc_timeSkew w) = true) ->
  KeyCloakService.refreshToken isForceRefresh now w
  = (Now (Fulfilled VUndefined),
     set_requests
       (requests w ++ [Some {| rqKc := r;
                               rqCall := CallUpdateToken (minValidity isForceRefresh now w);
                               rqHandler := HRefreshToken |}]) w).
Proof.
  intros Hkc H.
  unfold KeyCloakService.refreshToken, KeyCloakService.refreshToken_body, minValidity.
  js_unfold. unfold call_provider, modify.
  destruct H as [-> | [-> ->]]; [|destruct isForceRefresh]; simpl; by rewrite Hkc.
Qed.

Lemma refreshToken_without_client now w :
  kc w = None ->
  KeyCloakService.refreshToken true now w
  = (Now (Fulfilled (VError "Could not refresh Token:No Kc Instance")), w).
Proof.
  intros Hkc.
  unfold KeyCloakService.refreshToken, KeyCloakService.refreshToken_body.
  js_unfold. simpl. by rewrite Hkc.
Qed.

Section Refresh.
Variable decodeJwt : string -> gmap string Value.
Variables location_origin VUE_APP_PATH : string.

Local Abbreviation handle := (KeyCloakService.handle decodeJwt location_origin VUE_APP_PATH).
Local Abbreviation step := (KeyCloakService.step decodeJwt location_origin VUE_APP_PATH).

Lemma handle_refresh_keeps_promises ps s t :
  preserves (fun w => promises w = ps) (handle HRefreshToken s t).
Proof. pres_with field_leaf. Qed.

(** On rejection the callback chain of [refreshToken] evaluates to the
    error value, whatever the world and the reason. *)
Lemma handle_refresh_rejected e t w :
  fst (handle HRefreshToken (Rejected e) t w) = Normal (VError "Could not refresh Token").
Proof. reflexivity. Qed.

(** C10: a call of [refreshToken] that reaches the provider hands its
    caller a promise already fulfilled with [undefined], while the
    [updateToken] call is still in flight; however that call is settled
    later, no promise changes, and on rejection the error value
    'Could not refresh Token' is what the callback chain evaluates to, a
    settlement nobody receives. *)
Theorem refreshToken_settles_before_provider (isForceRefresh : bool) (now : Z)
    (w : World) (r : nat) :
  kc w = Some r ->
  isForceRefresh = true
  \/ (num_truthy (kc_exp w) = true /\ num_truthy (kc_timeSkew w) = true) ->
  exists w1,
    KeyCloakService.refreshToken isForceRefresh now w = (Now (Fulfilled VUndefined), w1)
    /\ requests w1 !! length (requests w)
       = Some (Some {| rqKc := r;
                       rqCall := CallUpdateToken (minValidity isForceRefresh now w);
                       rqHandler := HRefreshToken |})
    /\ promises w1 = promises w
    /\ (forall s d t, promises (step (KeyCloakService.Settle (length (requests w)) s d t) w1)
                      = promises w)
    /\ (forall e t w', fst (handle HRefreshToken (Rejected e) t w')
                       = Normal (VError "Could not refresh Token")).
Proof.
  intros Hkc Hguard. eexists. split; [by apply refreshToken_reaches_provider|].
  split; [|split; [done|split]].
  - simpl. by rewrite lookup_app_r, Nat.sub_diag.
  - intros s d t. simpl. rewrite lookup_app_r, Nat.sub_diag by done. simpl.
    by apply handle_refresh_keeps_promises.
  - intros. apply handle_refresh_rejected.
Qed.

End Refresh.

Lemma refreshToken_settles_before_provider_witness :
  fst (KeyCloakService.refreshToken true 1000000 Sample.signed_in)
  = Now (Fulfilled VUndefined)
  /\ promises (snd (KeyCloakService.refreshToken true 1000000 Sample.signed_in))
     = promises Sample.signed_in.
Proof.
  destruct (refreshToken_settles_before_provider Sample.decodeJwt Sample.origin
              Sample.app_path true 1000000 Sample.signed_in 0%nat)
    as (w1 & Hcall & _ & Hpromises & _).
  - reflexivity.
  - left. reflexivity.
  - rewrite Hcall. split; [reflexivity | exact Hpromises].
Defined.

(** C5, at the input where the code departs from it: the access token
    has a parsed expiry (2000 s) and the clock skew is established and
    equal to zero, as it is when both clocks agree; a refresh that is not
    forced is then a no-op, and no [updateToken] call with
    [minValidity = 2000 − 1000 + 0 + 100] is issued. *)
Theorem refreshToken_zero_skew_is_noop :
  kc_exp Sample.signed_in = Some 2000
  /\ kc_timeSkew Sample.signed_in = Some 0
  /\ KeyCloakService.refreshToken false 1000000 Sample.signed_in
     = (Now (Fulfilled VUndefined), Sample.signed_in)
  /\ in_flight Sample.signed_in = [].
Proof.
  split; [reflexivity|]. split; [reflexivity|]. split; [|reflexivity].
  apply refreshToken_noop. right. reflexivity.
Qed.

(** With a skew other than zero the same call reaches the provider with
    [tokenExpiry − ceil(now) + clockSkew + 100]. *)
Lemma refreshToken_minValidity now w r e s :
  kc w = Some r -> kc_exp w = Some e -> kc_timeSkew w = Some s ->
  e <> 0 -> s <> 0 ->
  in_flight (snd (KeyCloakService.refreshToken false now w))
  = (in_flight w ++ [{| rqKc := r;
                        rqCall := CallUpdateToken (e - ceil_seconds now + s + 100);
                        rqHandler := HRefreshToken |}])%list.
Proof.
  intros Hkc He Hs Hne Hns.
  rewrite (refreshToken_reaches_provider false now w r Hkc).
  - unfold in_flight, minValidity. simpl. rewrite omap_app, He, Hs. reflexivity.
  - right. rewrite He, Hs. simpl. split; apply negb_true_iff, Z.eqb_neq; done.
Qed.

Lemma refreshToken_forced now w r :
  kc w = Some r ->
  in_flight (snd (KeyCloakService.refreshToken true now w))
  = (in_flight w ++ [{| rqKc := r; rqCall := CallUpdateToken (-1);
                        rqHandler := HRefreshToken |}])%list.
Proof.
  intros Hkc. rewrite (refreshToken_reaches_provider true now w r Hkc) by (by left).
  unfold in_flight. simpl. by rewrite omap_app.
Qed.

(** C6, at an input where the code departs from it: signed in with token
    A, a forced refresh is rejected by the provider.  The session is
    cleared and nothing is left unhandled (the callback chain is
    fulfilled, with the error value), but the caller holds a promise that
    was fulfilled with [undefined] before the provider answered; the error
    value of the failure branch settles no promise the caller has. *)
Theorem refreshToken_rejection_not_surfaced :
  let call := KeyCloakService.refreshToken true 1000000 Sample.signed_in in
  let w2 := Sample.step
              (KeyCloakService.Settle 1 (Rejected (VError "Network Error"))
                 Sample.tokens_A Sample.t0) (snd call) in
  fst call = Now (Fulfilled VUndefined)
  /\ session (snd call) !! KeyCloakToken = Some "A"
  /\ session w2 !! KeyCloakToken = None
  /\ session w2 !! KeyCloakRefreshToken = None
  /\ session w2 !! KeyCloakIdToken = None
  /\ in_flight w2 = []
  /\ promises w2 = promises Sample.signed_in
  /\ fst (KeyCloakService.handle Sample.decodeJwt Sample.origin Sample.app_path
            HRefreshToken (Rejected (VError "Network Error")) Sample.t0 (snd call))
     = Normal (VError "Could not refresh Token").
Proof. vm_compute. repeat split; reflexivity. Qed.

(** ** User information and roles *)

Section Claims.
Variable decodeJwt : string -> gmap string Value.
Variables location_origin VUE_APP_PATH : string.

Local Abbreviation getUserInfo := (KeyCloakService.getUserInfo decodeJwt).
Local Abbreviation verifyRoles := (KeyCloakService.verifyRoles decodeJwt).
Local Abbreviation step := (KeyCloakService.step decodeJwt location_origin VUE_APP_PATH).
Local Abbreviation run := (KeyCloakService.run decodeJwt location_origin VUE_APP_PATH).

Lemma getUserInfo_decodes w :
  cache_empty w = true ->
  getUserInfo w
  = (Normal (profile_of (Some (KeyCloakService.decodeKCToken decodeJwt w))),
     set_parsedToken (Some (KeyCloakService.decodeKCToken decodeJwt w)) w).
Proof.
  intros H. unfold KeyCloakService.getUserInfo. js_unfold.
  unfold cache_empty in H. rewrite H. reflexivity.
Qed.

Lemma getUserInfo_cached w :
  cache_empty w = false ->
  getUserInfo w = (Normal (profile_of (parsedToken w)), w).
Proof.
  intros H. unfold KeyCloakService.getUserInfo. js_unfold.
  unfold cache_empty in H. rewrite H. reflexivity.
Qed.

Lemma getUserInfo_profile w :
  exists w', getUserInfo w = (Normal (profile_of (claims_in_use decodeJwt w)), w').
Proof.
  unfold claims_in_use. destruct (cache_empty w) eqn:H.
  - eexists. by apply getUserInfo_decodes.
  - eexists. by apply getUserInfo_cached.
Qed.

Lemma some_with_roles l ui rs w :
  roles ui = Some rs ->
  KeyCloakService.some l (KeyCloakService.roles_include ui) w
  = (Normal (existsb (fun role => bool_decide (role ∈ rs)) l), w).
Proof.
  intros Hr.
  assert (Hinc : forall x w', KeyCloakService.roles_include ui x w'
                              = (Normal (bool_decide (x ∈ rs)), w')).
  { intros. unfold KeyCloakService.roles_include. by rewrite Hr. }
  induction l as [|x l IH]; simpl; [done|].
  rewrite (bind_normal _ _ _ _ _ (Hinc x w)).
  destruct (bool_decide (x ∈ rs)); simpl; [done | apply IH].
Qed.

Lemma existsb_intersect (l rs : list string) :
  existsb (fun role => bool_decide (role ∈ rs)) l = true <-> intersect l rs.
Proof.
  rewrite existsb_exists. unfold intersect. split.
  - intros (x & Hin & Hx). exists x. split; [by apply list_elem_of_In|].
    by apply bool_decide_eq_true in Hx.
  - intros (x & Hin & Hx). exists x. split; [by apply list_elem_of_In|].
    by apply bool_decide_eq_true.
Qed.

(** Where the profile carries a roles array the method does what is
    asked of it: [verifyRoles] answers [true] for every user when neither
    list is supplied, and [false] for every user when [allowedRoles] is
    the empty list; for a user whose decoded token carries a roles array,
    it answers [true] iff that array intersects [allowedRoles] when
    [allowedRoles] is supplied (whatever [disabledRoles] is), and iff it
    does not intersect [disabledRoles] when only that list is supplied. *)
Theorem verifyRoles_spec (w : World) :
  fst (verifyRoles None None w) = Normal true
  /\ (forall disabledRoles, fst (verifyRoles (Some []) disabledRoles w) = Normal false)
  /\ (forall rs, user_roles decodeJwt w = Some rs ->
      (forall allowedRoles disabledRoles, exists b,
          fst (verifyRoles (Some allowedRoles) disabledRoles w) = Normal b
          /\ (b = true <-> intersect allowedRoles rs))
      /\ (forall disabledRoles, exists b,
          fst (verifyRoles None (Some disabledRoles) w) = Normal b
          /\ (b = true <-> ~ intersect disabledRoles rs))).
Proof.
  destruct (getUserInfo_profile w) as [w' Hui].
  split; [reflexivity|]. split.
  - intros disabledRoles. unfold KeyCloakService.verifyRoles.
    rewrite (bind_normal _ _ _ _ _ Hui). reflexivity.
  - intros rs Hrs. split.
    + intros allowedRoles disabledRoles. eexists. split.
      * unfold KeyCloakService.verifyRoles.
        rewrite (bind_normal _ _ _ _ _ Hui).
        rewrite (some_with_roles _ _ rs) by exact Hrs. reflexivity.
      * apply existsb_intersect.
    + intros disabledRoles. eexists. split.
      * unfold KeyCloakService.verifyRoles.
        rewrite (bind_normal _ _ _ _ _ Hui).
        erewrite bind_normal by (by apply (some_with_roles _ _ rs)).
        reflexivity.
      * rewrite negb_true_iff, <- not_true_iff_false. by rewrite existsb_intersect.
Qed.

End Claims.

Lemma verifyRoles_spec_witness :
  fst (KeyCloakService.verifyRoles Sample.decodeJwt (Some ["admin"; "staff"]) None
         Sample.signed_in) = Normal true
  /\ fst (KeyCloakService.verifyRoles Sample.decodeJwt None (Some ["banned"])
            Sample.signed_in) = Normal true.
Proof.
  destruct (verifyRoles_spec Sample.decodeJwt Sample.signed_in) as (_ & _ & H).
  destruct (H ["staff"]) as [Hallowed Hdisabled]; [reflexivity|].
  split.
  - destruct (Hallowed ["admin"; "staff"] None) as (b & -> & Hb).
    f_equal. apply Hb. exists "staff". split; apply list_elem_of_In; simpl; auto.
  - destruct (Hdisabled ["banned"]) as (b & -> & Hb).
    f_equal. apply Hb. intros (role & H1 & H2).
    apply list_elem_of_In in H1, H2. simpl in H1, H2.
    destruct H1 as [<-|[]]. destruct H2 as [H2|[]]. discriminate H2.
Defined.

(** C7, at the input where the code departs from it: a user whose token
    carries no roles array (nobody is signed in) has no role in common
    with the allow-list, yet is not answered [false]: the unguarded
    [userInfo.roles.includes] throws, although [getUserInfo] itself
    provides for an absent roles array. *)
Lemma verifyRoles_without_roles_throws :
  user_roles Sample.decodeJwt Sample.blank = None
  /\ fst (KeyCloakService.verifyRoles Sample.decodeJwt (Some ["admin"]) None Sample.blank)
     = Thrown (VError "TypeError: Cannot read properties of undefined (reading 'includes')")
  /\ ~ exists b, fst (KeyCloakService.verifyRoles Sample.decodeJwt (Some ["admin"]) None
                        Sample.blank) = Normal b.
Proof.
  split; [reflexivity|]. split; [reflexivity|]. intros [b Hb]. discriminate Hb.
Qed.

(** ** Invariants of the event loop *)

Lemma preserves_snd {A} (P : World -> Prop) (m : Js A) w :
  preserves P m -> P w -> P (snd (m w)).
Proof. intros H. apply H. Qed.

(** Reduces a goal [P (invoke op w)], [op] a constructor, to the
    preservation of [P] by the body of the method; [tac] proves that. *)
Ltac invoke_cases tac :=
  unfold KeyCloakService.invoke; cbv beta iota;
  unfold KeyCloakService.initializeKeyCloak, KeyCloakService.initSession,
    KeyCloakService.logout, KeyCloakService.refreshToken,
    KeyCloakService.initializeToken,
    KeyCloakService.syncSessionAndScheduleTokenRefresh;
  lazymatch goal with
  | |- ?f (snd (async ?b ?w)) = ?c =>
      apply (preserves_async (fun w0 => f w0 = c) b w); [tac tt | assumption]
  | |- ?f (snd (?b ?w)) = ?c =>
      apply (preserves_snd (fun w0 => f w0 = c) b w); [tac tt | assumption]
  end.

Section Invariants.
Variable decodeJwt : string -> gmap string Value.
Variables location_origin VUE_APP_PATH : string.

Local Abbreviation invoke := (KeyCloakService.invoke decodeJwt).
Local Abbreviation handle := (KeyCloakService.handle decodeJwt location_origin VUE_APP_PATH).
Local Abbreviation step := (KeyCloakService.step decodeJwt location_origin VUE_APP_PATH).
Local Abbreviation run := (KeyCloakService.run decodeJwt location_origin VUE_APP_PATH).

Lemma run_cons ev evs w : run (ev :: evs) w = run evs (step ev w).
Proof. reflexivity. Qed.

(** A property kept by every method, callback and table update is kept
    by every step, hence along every run. *)
Lemma step_preserves (P : World -> Prop) :
  (forall w x, P w -> P (set_timers x w)) ->
  (forall w x, P w -> P (set_requests x w)) ->
  (forall w d r, P w -> P (set_heap (alter (KeyCloakService.set_data d) r (heap w)) w)) ->
  (forall op w, P w -> P (invoke op w)) ->
  (forall tm, preserves P (KeyCloakService.timer_callback tm)) ->
  (forall h s t, preserves P (handle h s t)) ->
  forall ev w, P w -> P (step ev w).
Proof.
  intros Htimers Hrequests Hheap Hinvoke Hfire Hsettle ev w Hw.
  destruct ev as [op | h | rid s d t]; simpl.
  - by apply Hinvoke.
  - destruct (1 <=? h); [|done].
    destruct (timers w !! Z.to_nat (h - 1)) as [[tm|]|]; [|done|done].
    apply Hfire. by apply Htimers.
  - destruct (requests w !! rid) as [[rq|]|]; [|done|done].
    apply Hsettle. apply Hrequests. by apply Hheap.
Qed.

Lemma run_preserves (P : World -> Prop) :
  (forall ev w, P w -> P (step ev w)) ->
  forall evs w, P w -> P (run evs w).
Proof.
  intros Hstep evs. induction evs as [|ev evs IH]; intros w Hw; [done|].
  rewrite run_cons. apply IH. by apply Hstep.
Qed.

(** *** The cache of [getUserInfo] *)

Lemma getUserInfo_keeps_cache m :
  m <> ∅ ->
  preserves (fun w => parsedToken w = Some m) (KeyCloakService.getUserInfo decodeJwt).
Proof.
  intros Hm w Hw. rewrite getUserInfo_cached; [done|].
  unfold cache_empty. rewrite Hw. by apply bool_decide_eq_false.
Qed.

Ltac cache_leaf Hm := first [ by apply getUserInfo_keeps_cache | field_leaf ].

Lemma invoke_keeps_cache m op w :
  m <> ∅ -> parsedToken w = Some m -> parsedToken (invoke op w) = Some m.
Proof.
  intros Hm Hw.
  destruct op; invoke_cases ltac:(fun _ => pres_with ltac:(cache_leaf Hm)).
Qed.

Lemma step_keeps_cache m ev w :
  m <> ∅ -> parsedToken w = Some m -> parsedToken (step ev w) = Some m.
Proof.
  intros Hm. revert ev w.
  apply (step_preserves (fun w => parsedToken w = Some m)); try done.
  - intros. by apply invoke_keeps_cache.
  - intros tm. pres_with ltac:(cache_leaf Hm).
  - intros h s t. destruct h; pres_with ltac:(cache_leaf Hm).
Qed.

Lemma run_keeps_cache m evs w :
  m <> ∅ -> parsedToken w = Some m -> parsedToken (run evs w) = Some m.
Proof.
  intros Hm. apply (run_preserves (fun w => parsedToken w = Some m)).
  intros. by apply step_keeps_cache.
Qed.

(** C9, amended: [getUserInfo] decodes lazily and caches: while no
    non-empty claims record is cached it decodes the access token found in
    session storage and caches the result; once a non-empty record is
    cached, it is what every later call returns, whatever methods are
    called, timers fire and provider calls complete in between: a change
    of the access token does not invalidate the cache. *)
Theorem getUserInfo_cache (w : World) :
  (cache_empty w = true ->
   KeyCloakService.getUserInfo decodeJwt w
   = (Normal (profile_of (Some (KeyCloakService.decodeKCToken decodeJwt w))),
      set_parsedToken (Some (KeyCloakService.decodeKCToken decodeJwt w)) w))
  /\ (forall m, parsedToken w = Some m -> m <> ∅ ->
      forall evs,
        KeyCloakService.getUserInfo decodeJwt (run evs w)
        = (Normal (profile_of (Some m)), run evs w)).
Proof.
  split; [apply getUserInfo_decodes|].
  intros m Hw Hm evs.
  pose proof (run_keeps_cache m evs w Hm Hw) as Hrun.
  rewrite getUserInfo_cached.
  - by rewrite Hrun.
  - unfold cache_empty. rewrite Hrun. by apply bool_decide_eq_false.
Qed.

End Invariants.

Lemma getUserInfo_cache_witness :
  fst (KeyCloakService.getUserInfo Sample.decodeJwt
         (Sample.run [KeyCloakService.Fire 1;
                      KeyCloakService.Settle 1 (Fulfilled (VBool true)) Sample.tokens_B Sample.t0]
            (snd (KeyCloakService.getUserInfo Sample.decodeJwt Sample.signed_in))))
  = Normal (profile_of (Some (Sample.decodeJwt "A"))).
Proof.
  destruct (getUserInfo_cache Sample.decodeJwt Sample.origin Sample.app_path
              (snd (KeyCloakService.getUserInfo Sample.decodeJwt Sample.signed_in)))
    as [_ Hcached].
  unfold Sample.run.
  rewrite (Hcached (Sample.decodeJwt "A")).
  - reflexivity.
  - reflexivity.
  - intros Hempty.
    assert (H : Sample.decodeJwt "A" !! "sub" = (∅ : gmap string Value) !! "sub")
      by (by rewrite Hempty).
    vm_compute in H. discriminate H.
Defined.

(** C9 fails as stated: signed in with token A, the claims are read; the
    scheduled refresh then replaces the access token by B, in the client
    and in session storage; [getUserInfo] still answers with the claims of
    A (alice), not with those decoded from B (bob). *)
Lemma getUserInfo_stale_after_token_change :
  let w := Sample.run [KeyCloakService.Invoke KeyCloakService.OpGetUserInfo;
                       KeyCloakService.Fire 1;
                       KeyCloakService.Settle 1 (Fulfilled (VBool true))
                         Sample.tokens_B Sample.t0] Sample.signed_in in
  session Sample.signed_in !! KeyCloakToken = Some "A"
  /\ session w !! KeyCloakToken = Some "B"
  /\ kc_token w = Some "B"
  /\ keycloakGuid (profile_of (Some (KeyCloakService.decodeKCToken Sample.decodeJwt w)))
     = VStr "bob"
  /\ fst (KeyCloakService.getUserInfo Sample.decodeJwt w)
     = Normal (profile_of (Some (Sample.decodeJwt "A")))
  /\ keycloakGuid (profile_of (Some (Sample.decodeJwt "A"))) = VStr "alice".
Proof. vm_compute. repeat split; reflexivity. Qed.

(** ** The login hint *)

Section LoginHint.
Variable decodeJwt : string -> gmap string Value.
Variables location_origin VUE_APP_PATH : string.

Local Abbreviation run := (KeyCloakService.run decodeJwt location_origin VUE_APP_PATH).

Lemma new_kc_keeps_login r f : preserves (has_login r f) new_kc.
Proof.
  intros w (k & Hk & Hf). exists k. split; [|done]. simpl.
  by apply lookup_app_l_Some.
Qed.

Lemma set_data_keeps_login r f w d r' :
  has_login r f w ->
  has_login r f (set_heap (alter (KeyCloakService.set_data d) r' (heap w)) w).
Proof.
  intros (k & Hk & Hf). unfold has_login. simpl.
  destruct (decide (r' = r)) as [->|Hne].
  - exists (KeyCloakService.set_data d k). split; [|done].
    by rewrite list_lookup_alter_eq, Hk.
  - exists k. split; [|done]. by rewrite list_lookup_alter_ne.
Qed.

Lemma initializeKeyCloak_body_keeps_login r f hint :
  preserves (has_login r f) (KeyCloakService.initializeKeyCloak_body hint).
Proof.
  unfold KeyCloakService.initializeKeyCloak_body.
  apply preserves_bind; [pres_with field_leaf|]. intros _.
  apply preserves_bind; [apply preserves_get|]. intros w0.
  intros w (k & Hk & Hf). exists k. split; [|done].
  js_unfold. unfold new_kc, new_promise, call_provider, modify. simpl.
  rewrite list_lookup_alter_ne.
  - by apply lookup_app_l_Some.
  - apply lookup_lt_Some in Hk. lia.
Qed.

Ltac login_leaf :=
  idtac;
  lazymatch goal with
  | |- preserves _ new_kc => apply new_kc_keeps_login
  | |- preserves _ (KeyCloakService.initializeKeyCloak_body _) =>
      apply initializeKeyCloak_body_keeps_login
  | |- preserves _ new_promise => intros ? ?; assumption
  | |- preserves _ (setTimeout _) => intros ? ?; assumption
  | |- preserves _ _ => fail
  | |- _ => field_leaf
  end.

Lemma run_keeps_login r f evs w : has_login r f w -> has_login r f (run evs w).
Proof.
  revert evs w. apply run_preserves. apply step_preserves; try done.
  - intros. by apply set_data_keeps_login.
  - intros op w Hw. destruct op; unfold KeyCloakService.invoke; cbv beta iota;
      unfold KeyCloakService.initializeKeyCloak, KeyCloakService.initSession,
        KeyCloakService.logout, KeyCloakService.refreshToken,
        KeyCloakService.initializeToken,
        KeyCloakService.syncSessionAndScheduleTokenRefresh;
      first [ apply preserves_async; [|done] | apply preserves_snd; [|done] ];
      pres_with login_leaf.
  - intros tm. pres_with login_leaf.
  - intros h s t. destruct h; pres_with login_leaf.
Qed.

(** C8, amended: after [initializeKeyCloak(idpHint)] the [login] entry
    point of the constructed client puts the hint into the options of
    every login attempt that passes an options object, whoever makes it
    (it is the client's own [login] property that is replaced, and it
    stays replaced through every later method call, timer and provider
    response); a login attempt without options is forwarded without
    options, hence without hint. *)
Theorem login_hint_injected (hint : string) (w : World) :
  exists r k,
    kc (snd (KeyCloakService.initializeKeyCloak hint w)) = Some r
    /\ heap (snd (KeyCloakService.initializeKeyCloak hint w)) !! r = Some k
    /\ (forall o, login k (Some o)
                  = Some {| idpHint := Some hint;
                            loginRedirectUri := loginRedirectUri o;
                            prompt := prompt o |})
    /\ login k None = None
    /\ (forall evs, has_login r (login k)
                      (run evs (snd (KeyCloakService.initializeKeyCloak hint w)))).
Proof.
  assert (Hk : heap (snd (KeyCloakService.initializeKeyCloak hint w)) !! length (heap w)
               = Some {| config := keycloakConfigUrl w; data := no_data;
                         login := KeyCloakService.patched_login kcLogin hint |}).
  { unfold KeyCloakService.initializeKeyCloak, KeyCloakService.initializeKeyCloak_body,
      KeyCloakService.clearSession.
    js_unfold. unfold new_kc, new_promise, call_provider, modify. simpl.
    destruct (authStore w); simpl;
      rewrite list_lookup_alter_eq, lookup_app_r by lia;
      by rewrite Nat.sub_diag. }
  exists (length (heap w)), {| config := keycloakConfigUrl w; data := no_data;
                                login := KeyCloakService.patched_login kcLogin hint |}.
  split; [|split; [exact Hk|split; [done|split; [done|]]]].
  - unfold KeyCloakService.initializeKeyCloak, KeyCloakService.initializeKeyCloak_body,
      KeyCloakService.clearSession.
    js_unfold. unfold new_kc, new_promise, call_provider, modify. simpl.
    by destruct (authStore w).
  - intros evs. apply run_keeps_login. eexists. split; [exact Hk|done].
Qed.

End LoginHint.

(** C8 fails as stated: a login attempt made through the constructed
    client without an options object reaches the provider without
    options, so without the hint. *)
Lemma login_without_options_has_no_hint :
  let w := snd (KeyCloakService.initializeKeyCloak "idir" Sample.blank) in
  exists k, the_kc w = Some k
            /\ login k None = None
            /\ (login k None ≫= idpHint) <> Some "idir".
Proof. eexists. split; [reflexivity|]. split; [reflexivity|]. discriminate. Qed.

(** ** Synchronising the session after initialisation *)

Lemma clearSession_run w : KeyCloakService.clearSession w = (Normal tt, cleared w).
Proof.
  unfold KeyCloakService.clearSession, cleared. js_unfold.
  by destruct (authStore w).
Qed.

Lemma syncSessionStorage_run w d :
  kc_data w = Some d ->
  KeyCloakService.syncSessionStorage w
  = (Normal tt, set_session (persisted d (session w)) w).
Proof.
  intros Hd. unfold KeyCloakService.syncSessionStorage, KeyCloakService.addToSession,
    persisted, persist.
  js_unfold. rewrite Hd.
  destruct (str_or_undefined (token d)), (str_or_undefined (refreshToken d)),
    (str_or_undefined (idToken d)); reflexivity.
Qed.

Lemma persisted_lookup d s :
  (forall x, str_or_undefined (token d) = Some x ->
             persisted d s !! KeyCloakToken = Some x)
  /\ (forall x, str_or_undefined (refreshToken d) = Some x ->
                persisted d s !! KeyCloakRefreshToken = Some x)
  /\ (forall x, str_or_undefined (idToken d) = Some x ->
                persisted d s !! KeyCloakIdToken = Some x)
  /\ persisted d s !! SessionSynced = Some "true".
Proof.
  unfold persisted, persist. repeat split.
  - intros x ->. rewrite lookup_insert_ne by done.
    destruct (str_or_undefined (idToken d)); [rewrite lookup_insert_ne by done|];
      (destruct (str_or_undefined (refreshToken d)); [rewrite lookup_insert_ne by done|]);
      apply lookup_insert_eq.
  - intros x ->. rewrite lookup_insert_ne by done.
    destruct (str_or_undefined (idToken d)); [rewrite lookup_insert_ne by done|];
      apply lookup_insert_eq.
  - intros x ->. rewrite lookup_insert_ne by done. apply lookup_insert_eq.
  - apply lookup_insert_eq.
Qed.

Lemma without_tokens_lookup s :
  without_tokens s !! KeyCloakToken = None
  /\ without_tokens s !! KeyCloakIdToken = None
  /\ without_tokens s !! KeyCloakRefreshToken = None.
Proof.
  unfold without_tokens. repeat split.
  - rewrite !lookup_delete_ne by done. apply lookup_delete_eq.
  - rewrite lookup_delete_ne by done. apply lookup_delete_eq.
  - apply lookup_delete_eq.
Qed.

Lemma scheduleRefreshTimer_run early t w :
  KeyCloakService.scheduleRefreshTimer early t w
  = if can_schedule w t then
      (Normal tt,
       set_timerId (Z.of_nat (length (timers w)) + 1)
         (set_timers
            (timers w ++ [Some {| tmDelay := KeyCloakService.expiresIn w (now2 t) * 1000
                                             - Z.max 10 early * 1000;
                                  tmEarly := Z.max 10 early * 1000 |}]) w))
    else (Thrown KeyCloakService.RefreshTokenExpired, w).
Proof.
  unfold KeyCloakService.scheduleRefreshTimer, can_schedule.
  destruct (negative _) eqn:Hn; simpl.
  - apply scheduleRefreshToken_throws. by left.
  - destruct (0 <=? _) eqn:He.
    + apply scheduleRefreshToken_arms; [done | by apply Z.leb_le].
    + apply scheduleRefreshToken_throws. right. by apply Z.leb_gt.
Qed.

(** C4, amended.  When the client reports authenticated,
    [syncSessionAndScheduleTokenRefresh] writes every token that is
    present to session storage and marks the session as synced; then,
    when scheduling is not requested, or is requested and the expiry
    guards of the scheduler pass, it arms the timer if requested and
    resolves with the current access token; when scheduling is requested
    and a guard fails, it rejects with 'Refresh Token Expired. No more
    token refreshes' and arms nothing.  When the client does not report
    authenticated, it removes the three tokens from session storage,
    clears the auth store if one is active, and resolves with the error
    value NOT_AUTHENTICATED. *)
Theorem syncSession_outcome (isScheduleRefresh : bool) (t : Readings) (w : World) :
  let result := KeyCloakService.syncSessionAndScheduleTokenRefresh isScheduleRefresh t w in
  (forall d, kc_data w = Some d -> authenticated d = true ->
     session (snd result) = persisted d (session w)
     /\ (isScheduleRefresh = false ->
         fst result = Now (Fulfilled (value_of_token (token d)))
         /\ timers (snd result) = timers w)
     /\ (isScheduleRefresh = true -> can_schedule w t = true ->
         fst result = Now (Fulfilled (value_of_token (token d)))
         /\ timers (snd result)
            = (timers w ++ [Some {| tmDelay := KeyCloakService.expiresIn w (now2 t) * 1000
                                              - 10000;
                                   tmEarly := 10000 |}])%list
         /\ timerId (snd result) = Z.of_nat (length (timers w)) + 1)
     /\ (isScheduleRefresh = true -> can_schedule w t = false ->
         fst result
         = Now (Rejected (VError "Refresh Token Expired. No more token refreshes"))
         /\ timers (snd result) = timers w))
  /\ (kc_data w = None \/ (exists d, kc_data w = Some d /\ authenticated d = false) ->
      result = (Now (Fulfilled (VError "NOT_AUTHENTICATED")), cleared w)).
Proof.
  intros result. subst result.
  unfold KeyCloakService.syncSessionAndScheduleTokenRefresh,
    KeyCloakService.syncSessionAndScheduleTokenRefresh_body.
  js_unfold. split.
  - intros d Hd Hauth. rewrite Hd, Hauth.
    rewrite (syncSessionStorage_run w d Hd).
    destruct isScheduleRefresh.
    + rewrite scheduleRefreshTimer_run.
      change (can_schedule (set_session (persisted d (session w)) w) t)
        with (can_schedule w t).
      destruct (can_schedule w t); simpl; repeat split; done.
    + simpl. repeat split; done.
  - intros [-> | (d & -> & ->)]; by rewrite clearSession_run.
Qed.

Lemma syncSession_outcome_witness :
  fst (KeyCloakService.syncSessionAndScheduleTokenRefresh true Sample.t0
         (Sample.after_init false Sample.tokens_A))
  = Now (Fulfilled (VStr "A"))
  /\ KeyCloakService.syncSessionAndScheduleTokenRefresh true Sample.t0
       (Sample.after_init false Sample.signed_out)
     = (Now (Fulfilled (VError "NOT_AUTHENTICATED")),
        cleared (Sample.after_init false Sample.signed_out)).
Proof.
  split.
  - destruct (syncSession_outcome true Sample.t0 (Sample.after_init false Sample.tokens_A))
      as [Hauth _].
    destruct (Hauth Sample.tokens_A) as (_ & _ & Harm & _); [reflexivity..|].
    destruct Harm as [-> _]; reflexivity.
  - destruct (syncSession_outcome true Sample.t0 (Sample.after_init false Sample.signed_out))
      as [_ Hnot].
    apply Hnot. right. exists Sample.signed_out. split; reflexivity.
Defined.

(** C4 fails as stated: the client reports authenticated, scheduling is
    requested, and the refresh token has expired; the call arms no timer
    and does not return the access token: it rejects. *)
Lemma syncSession_rejects_when_refresh_expired :
  let w := Sample.after_init false Sample.refresh_expired in
  let result := KeyCloakService.syncSessionAndScheduleTokenRefresh true Sample.t0 w in
  (authenticated <$> kc_data w) = Some true
  /\ kc_token w = Some "A"
  /\ fst result
     = Now (Rejected (VError "Refresh Token Expired. No more token refreshes"))
  /\ fst result <> Now (Fulfilled (VStr "A"))
  /\ pending_timers (snd result) = [].
Proof. vm_compute. repeat split; try reflexivity. discriminate. Qed.

(** ** Logout *)

Lemma omap_id_snoc_Some {A} (l : list (option A)) x :
  omap id (l ++ [Some x])%list = (omap id l ++ [x])%list.
Proof. by rewrite omap_app. Qed.

Lemma omap_id_take_slot {A} (l : list (option A)) x :
  omap id (<[length l := None]> (l ++ [Some x])%list) = omap id l.
Proof.
  rewrite insert_app_r_alt, Nat.sub_diag by lia. simpl.
  rewrite omap_app. simpl. by rewrite app_nil_r.
Qed.

Lemma logout_without_token redirectUrl w :
  KeyCloakService.stored KeyCloakToken w = None ->
  KeyCloakService.logout redirectUrl w = (Now (Fulfilled VUndefined), w).
Proof.
  intros H. unfold KeyCloakService.logout, KeyCloakService.logout_body.
  js_unfold. by rewrite H.
Qed.

Lemma logout_with_token redirectUrl w token :
  KeyCloakService.stored KeyCloakToken w = Some token ->
  KeyCloakService.logout redirectUrl w
  = (Later (length (promises w)), logout_started redirectUrl token w).
Proof.
  intros H. unfold KeyCloakService.logout, KeyCloakService.logout_body.
  js_unfold. rewrite H. reflexivity.
Qed.

Section Logout.
Variable decodeJwt : string -> gmap string Value.
Variables location_origin VUE_APP_PATH : string.

Local Abbreviation step := (KeyCloakService.step decodeJwt location_origin VUE_APP_PATH).

(** The provider answers the [init] call of [logout]: the [logout] call
    is issued on the current client; the caller's promise is resolved at
    this point exactly when the answer is falsy. *)
Lemma logout_init_answered redirectUrl token w authenticated d t :
  step (KeyCloakService.Settle (length (requests w)) (Fulfilled authenticated) d t)
       (logout_started redirectUrl token w)
  = let w1 := logout_started redirectUrl token w in
    set_requests
      (<[length (requests w) := None]> (requests w1)
       ++ [Some (logout_request location_origin VUE_APP_PATH redirectUrl w)])
      (set_promises
         (if truthy authenticated then promises w1
          else <[length (promises w) := Some (Fulfilled VUndefined)]> (promises w1))
         (set_heap (alter (KeyCloakService.set_data d) (length (heap w)) (heap w1)) w1)).
Proof.
  unfold KeyCloakService.step, logout_started. simpl.
  rewrite lookup_app_r, Nat.sub_diag by done. simpl.
  destruct (truthy authenticated); js_run; [done|].
  rewrite lookup_app_r, Nat.sub_diag by done. by js_run.
Qed.

(** The provider answers a [logout] call: the caller's promise is
    settled accordingly, unless it is settled already. *)
Lemma logout_call_answered v n r c p s d t :
  requests v !! n = Some (Some {| rqKc := r; rqCall := c; rqHandler := HLogoutDone p |}) ->
  step (KeyCloakService.Settle n s d t) v
  = let v' := set_requests (<[n := None]> (requests v))
                (set_heap (alter (KeyCloakService.set_data d) r (heap v)) v) in
    match promises v !! p with
    | Some None =>
        set_promises
          (<[p := Some match s with
                       | Fulfilled _ => Fulfilled VUndefined
                       | Rejected e => Rejected e
                       end]> (promises v)) v'
    | _ => v'
    end.
Proof.
  intros Hrq. unfold KeyCloakService.step. rewrite Hrq. simpl.
  destruct s as [x|e]; js_run; by destruct (promises v !! p) as [[?|]|].
Qed.

(** C3, amended.  [logout] is a no-op resolving at once when session
    storage holds no access token.  Otherwise, when it returns, session
    storage holds nothing but the prevent-storage-sync flag, and the
    provider has only been sent the [init] call, still unanswered; if that
    call reports the session authenticated and the provider's [logout]
    call that follows is rejected, the promise handed to the caller is
    rejected with that error, session storage being still cleared. *)
Theorem logout_outcome (redirectUrl : option string) (w : World) :
  (KeyCloakService.stored KeyCloakToken w = None ->
   KeyCloakService.logout redirectUrl w = (Now (Fulfilled VUndefined), w))
  /\ (forall token, KeyCloakService.stored KeyCloakToken w = Some token ->
      let p := length (promises w) in
      let rid := length (requests w) in
      let w1 := snd (KeyCloakService.logout redirectUrl w) in
      fst (KeyCloakService.logout redirectUrl w) = Later p
      /\ promises w1 !! p = Some None
      /\ session w1 = {[PreventStorageSync := "true"]}
      /\ in_flight w1 = (in_flight w ++ [logout_init_request redirectUrl token w])%list
      /\ (forall authenticated d t e d' t',
            truthy authenticated = true ->
            let w2 := step (KeyCloakService.Settle rid (Fulfilled authenticated) d t) w1 in
            let w3 := step (KeyCloakService.Settle (S rid) (Rejected e) d' t') w2 in
            in_flight w2
            = (in_flight w ++ [logout_request location_origin VUE_APP_PATH redirectUrl w])%list
            /\ promises w2 !! p = Some None
            /\ promises w3 !! p = Some (Some (Rejected e))
            /\ in_flight w3 = in_flight w
            /\ session w3 = {[PreventStorageSync := "true"]})).
Proof.
  split; [apply logout_without_token|].
  intros token Htoken p rid w1. subst p rid w1.
  rewrite (logout_with_token _ _ _ Htoken). cbn [fst snd].
  split; [done|]. split; [simpl; by rewrite lookup_app_r, Nat.sub_diag|].
  split; [done|]. split; [apply omap_id_snoc_Some|].
  intros authenticated d t e d' t' Hauth.
  rewrite logout_init_answered, Hauth. cbv zeta.
  assert (Hlen : forall rq : Request,
             length (<[length (requests w) := None]> (requests w ++ [Some rq])%list)
             = S (length (requests w))).
  { intros rq. rewrite length_insert, length_app. simpl. lia. }
  assert (Hpending : (promises w ++ [None])%list !! length (promises w)
                     = Some (@None Settled)).
  { by rewrite lookup_app_r, Nat.sub_diag. }
  erewrite logout_call_answered; cycle 1.
  { simpl. rewrite lookup_app_r; rewrite Hlen; [|done].
    rewrite Nat.sub_diag. reflexivity. }
  simpl. rewrite Hpending. simpl.
  split; [|split; [done|split; [|split; [|done]]]].
  - unfold in_flight. simpl. by rewrite omap_id_snoc_Some, omap_id_take_slot.
  - rewrite list_lookup_insert_eq; [done|]. rewrite length_app. simpl. lia.
  - unfold in_flight. simpl.
    rewrite <- (Hlen (logout_init_request redirectUrl token w)) at 1.
    by rewrite omap_id_take_slot, omap_id_take_slot.
Qed.

End Logout.

Lemma logout_outcome_witness :
  fst (KeyCloakService.logout None Sample.signed_in) = Later 1%nat
  /\ session (snd (KeyCloakService.logout None Sample.signed_in))
     = {[PreventStorageSync := "true"]}
  /\ promises
       (Sample.step
          (KeyCloakService.Settle 2 (Rejected (VError "Network Error"))
             Sample.signed_out Sample.t0)
          (Sample.step
             (KeyCloakService.Settle 1 (Fulfilled (VBool true))
                Sample.tokens_A Sample.t0)
             (snd (KeyCloakService.logout None Sample.signed_in)))) !! 1%nat
     = Some (Some (Rejected (VError "Network Error"))).
Proof.
  destruct (logout_outcome Sample.decodeJwt Sample.origin Sample.app_path None
              Sample.signed_in) as [_ H].
  destruct (H "A") as (Hp & _ & Hsession & _ & Hreject); [reflexivity|].
  split; [exact Hp|]. split; [exact Hsession|].
  destruct (Hreject (VBool true) Sample.tokens_A Sample.t0 (VError "Network Error")
              Sample.signed_out Sample.t0) as (_ & _ & Hrejected & _); [reflexivity|].
  exact Hrejected.
Defined.

(** C3 fails as stated: the [init] call of [logout] reports the session
    not authenticated, which resolves the caller's promise, and the
    [logout] call is made all the same; when the provider rejects that
    call, the caller's promise stays fulfilled: it does not reject. *)
Lemma logout_rejection_lost_when_not_authenticated :
  let w1 := snd (KeyCloakService.logout None Sample.signed_in) in
  let w2 := Sample.step (KeyCloakService.Settle 1 (Fulfilled (VBool false))
                           Sample.signed_out Sample.t0) w1 in
  let w3 := Sample.step (KeyCloakService.Settle 2 (Rejected (VError "Network Error"))
                           Sample.signed_out Sample.t0) w2 in
  fst (KeyCloakService.logout None Sample.signed_in) = Later 1%nat
  /\ in_flight w2
     = [{| rqKc := 1%nat; rqCall := CallLogout "https://app.example/app";
           rqHandler := HLogoutDone 1 |}]
  /\ promises w3 !! 1%nat = Some (Some (Fulfilled VUndefined))
  /\ promises w3 !! 1%nat <> Some (Some (Rejected (VError "Network Error"))).
Proof. vm_compute. repeat split; try reflexivity. discriminate. Qed.

(** ** The refresh timer chain *)

Lemma omap_id_clear_le {A} (l : list (option A)) i :
  (length (omap id (<[i := None]> l)) <= length (omap id l))%nat.
Proof.
  revert i. induction l as [|x l IH]; intros [|i]; [done|done| |].
  - destruct x; simpl; unfold omap; lia.
  - specialize (IH i). destruct x; simpl; unfold omap in *; lia.
Qed.

Lemma omap_id_clear_Some {A} (l : list (option A)) i x :
  l !! i = Some (Some x) ->
  (length (omap id (<[i := None]> l)) + 1 = length (omap id l))%nat.
Proof.
  revert i. induction l as [|y l IH]; intros [|i] H; [done|done| |].
  - injection H as ->. simpl. unfold omap. lia.
  - specialize (IH i H). destruct y; simpl; unfold omap in *; lia.
Qed.

Lemma omap_id_clear_Forall {A} (P : A -> Prop) (l : list (option A)) i :
  Forall P (omap id l) -> Forall P (omap id (<[i := None]> l)).
Proof.
  revert i. induction l as [|y l IH]; intros [|i] H; [done|done| |].
  - destruct y; simpl in *; [by inversion H | done].
  - destruct y; simpl in *.
    + inversion H; subst. constructor; [done | by apply IH].
    + by apply IH.
Qed.

Lemma omap_id_elem {A} (l : list (option A)) i x :
  l !! i = Some (Some x) -> x ∈ omap id l.
Proof.
  intros H. apply list_elem_of_omap. exists (Some x). split; [|done].
  by eapply list_elem_of_lookup_2.
Qed.

Lemma syncSessionStorage_session w :
  exists s, KeyCloakService.syncSessionStorage w = (Normal tt, set_session s w).
Proof.
  destruct (kc_data w) as [d|] eqn:Hd.
  - eexists. by apply syncSessionStorage_run.
  - eexists. unfold KeyCloakService.syncSessionStorage, KeyCloakService.addToSession.
    js_unfold. rewrite Hd. reflexivity.
Qed.

Lemma scheduleRefreshToken_run ms t w :
  KeyCloakService.scheduleRefreshToken ms t w
  = if can_schedule w t then
      (Normal tt,
       set_timerId (Z.of_nat (length (timers w)) + 1)
         (set_timers
            (timers w ++ [Some {| tmDelay := KeyCloakService.expiresIn w (now2 t) * 1000 - ms;
                                  tmEarly := ms |}]) w))
    else (Thrown KeyCloakService.RefreshTokenExpired, w).
Proof.
  unfold can_schedule. destruct (negative _) eqn:Hn; simpl.
  - apply scheduleRefreshToken_throws. by left.
  - destruct (0 <=? _) eqn:He.
    + apply scheduleRefreshToken_arms; [done | by apply Z.leb_le].
    + apply scheduleRefreshToken_throws. right. by apply Z.leb_gt.
Qed.

Section TimerChain.
Variable decodeJwt : string -> gmap string Value.
Variables location_origin VUE_APP_PATH : string.

Local Abbreviation handle := (KeyCloakService.handle decodeJwt location_origin VUE_APP_PATH).
Local Abbreviation step := (KeyCloakService.step decodeJwt location_origin VUE_APP_PATH).
Local Abbreviation run := (KeyCloakService.run decodeJwt location_origin VUE_APP_PATH).

(** The callbacks of a scheduled refresh issue no provider call and arm
    one timer at most. *)
Lemma handle_scheduled_refresh early s t w :
  in_flight (snd (handle (HScheduledRefresh early) s t w)) = in_flight w
  /\ (length (pending_timers (snd (handle (HScheduledRefresh early) s t w)))
      <= length (pending_timers w) + 1)%nat.
Proof.
  unfold KeyCloakService.handle.
  assert (Hclear : forall v : World,
    in_flight (snd (returns_nothing (v0 ← get; clearTimeout (timerId v0)) v)) = in_flight v
    /\ (length (pending_timers (snd (returns_nothing (v0 ← get; clearTimeout (timerId v0)) v)))
        <= length (pending_timers v))%nat).
  { intros v. js_run. destruct (1 <=? timerId v); simpl; [|done].
    split; [done|]. apply omap_id_clear_le. }
  destruct s as [refreshed|e]; unfold then_catch; cbv beta;
    [|destruct (Hclear w) as [H1 H2]; split;
      [exact H1 | eapply Nat.le_trans; [exact H2 | lia]]].
  destruct (truthy refreshed); [|js_run; split; [done|lia]].
  destruct (syncSessionStorage_session w) as [s Hs]. unfold when.
  assert (Hbody :
    returns_nothing (KeyCloakService.syncSessionStorage;;
                     KeyCloakService.scheduleRefreshToken early t) w
    = if can_schedule w t then
        (Normal VUndefined,
         set_timerId (Z.of_nat (length (timers w)) + 1)
           (set_timers
              (timers w ++ [Some {| tmDelay := KeyCloakService.expiresIn w (now2 t) * 1000
                                               - early;
                                    tmEarly := early |}]) (set_session s w)))
      else (Thrown KeyCloakService.RefreshTokenExpired, set_session s w)).
  { unfold returns_nothing. js_unfold. rewrite Hs, scheduleRefreshToken_run.
    change (can_schedule (set_session s w) t) with (can_schedule w t).
    by destruct (can_schedule w t). }
  rewrite Hbody. destruct (can_schedule w t).
  - unfold pending_timers. simpl. rewrite omap_id_snoc_Some, length_app.
    simpl. split; [done|lia].
  - destruct (Hclear (set_session s w)) as [H1 H2]. split; [exact H1|].
    eapply Nat.le_trans; [exact H2|]. unfold pending_timers. simpl. lia.
Qed.

Lemma step_keeps_one_chain ev w :
  environment_event ev -> one_chain w -> one_chain (step ev w).
Proof.
  intros Hev [Hall Hload]. destruct ev as [op | h | rid s d t]; [done| |]; simpl.
  - destruct (1 <=? h); [|done].
    destruct (timers w !! Z.to_nat (h - 1)) as [[tm|]|] eqn:Hslot; [|done|done].
    pose proof (omap_id_clear_Some _ _ _ Hslot) as Hless.
    unfold KeyCloakService.timer_callback. js_run.
    destruct (kc w) as [r|]; js_run.
    + unfold one_chain, in_flight, pending_timers in *. simpl.
      rewrite omap_id_snoc_Some. split.
      * apply Forall_app. split; [done|]. constructor; [|done]. by eexists.
      * rewrite length_app. simpl. lia.
    + unfold one_chain, in_flight, pending_timers in *. simpl. split; [done|lia].
  - destruct (requests w !! rid) as [[rq|]|] eqn:Hslot; [|done|done].
    pose proof (omap_id_clear_Some _ _ _ Hslot) as Hless.
    assert (Hrq : scheduled_refresh rq).
    { eapply Forall_forall; [exact Hall|]. by eapply omap_id_elem. }
    destruct Hrq as [early ->].
    match goal with
    | |- one_chain (snd (handle _ s t ?v)) =>
        destruct (handle_scheduled_refresh early s t v) as [Hsame Hone]
    end.
    unfold one_chain. rewrite Hsame.
    unfold in_flight, pending_timers in *. simpl in *. split.
    + by apply omap_id_clear_Forall.
    + lia.
Qed.

End TimerChain.

(** *** Counting what may arm a timer *)

Lemma arming_snoc (l : list (option Request)) rq :
  length (List.filter may_arm (omap id (l ++ [Some rq])%list))
  = (length (List.filter may_arm (omap id l)) + (if may_arm rq then 1 else 0))%nat.
Proof.
  rewrite omap_id_snoc_Some, List.filter_app, length_app. simpl.
  by destruct (may_arm rq).
Qed.

Lemma arming_clear_le (l : list (option Request)) i :
  (length (List.filter may_arm (omap id (<[i := None]> l)))
   <= length (List.filter may_arm (omap id l)))%nat.
Proof.
  revert i. induction l as [|y l IH]; intros [|i]; [done|done| |].
  - destruct y as [rq|]; simpl; unfold omap; [destruct (may_arm rq)|]; simpl; lia.
  - specialize (IH i). destruct y as [rq|]; simpl; unfold omap in *;
      [destruct (may_arm rq)|]; simpl; lia.
Qed.

Lemma arming_clear_Some (l : list (option Request)) i rq :
  l !! i = Some (Some rq) ->
  (length (List.filter may_arm (omap id (<[i := None]> l)))
   + (if may_arm rq then 1 else 0)
   = length (List.filter may_arm (omap id l)))%nat.
Proof.
  revert i. induction l as [|y l IH]; intros [|i] H; [done|done| |].
  - injection H as ->. simpl. unfold omap. destruct (may_arm rq); simpl; lia.
  - specialize (IH i H). destruct y as [rq'|]; simpl; unfold omap in *;
      [destruct (may_arm rq')|]; simpl; lia.
Qed.

Lemma chains_call_provider w rq :
  chains (set_requests (requests w ++ [Some rq]) w)
  = (chains w + (if may_arm rq then 1 else 0))%nat.
Proof.
  unfold chains, in_flight, pending_timers. simpl. rewrite arming_snoc. lia.
Qed.

Lemma chains_setTimeout w tm :
  chains (set_timers (timers w ++ [Some tm]) w) = (chains w + 1)%nat.
Proof.
  unfold chains, in_flight, pending_timers. simpl.
  rewrite omap_id_snoc_Some, length_app. simpl. lia.
Qed.

Lemma chains_clearTimeout w i :
  (chains (set_timers (<[i := None]> (timers w)) w) <= chains w)%nat.
Proof.
  unfold chains, in_flight, pending_timers. simpl.
  pose proof (omap_id_clear_le (timers w) i). lia.
Qed.

Lemma chains_expired w i tm :
  timers w !! i = Some (Some tm) ->
  (chains (set_timers (<[i := None]> (timers w)) w) + 1 = chains w)%nat.
Proof.
  intros H. unfold chains, in_flight, pending_timers. simpl.
  pose proof (omap_id_clear_Some _ _ _ H). lia.
Qed.

Lemma chains_answered w i rq h :
  requests w !! i = Some (Some rq) ->
  (chains (set_requests (<[i := None]> (requests w)) (set_heap h w))
   + (if may_arm rq then 1 else 0)
   = chains w)%nat.
Proof.
  intros H. unfold chains, in_flight, pending_timers. simpl.
  pose proof (arming_clear_Some _ _ _ H). lia.
Qed.

(** *** Composition *)

Lemma leads_preserves {A} P (m : Js A) : preserves P m -> leads P m P.
Proof. intros H. exact H. Qed.

Lemma leads_weaken {A} (P Q : World -> Prop) (m : Js A) :
  (forall w, P w -> Q w) -> preserves P m -> leads P m Q.
Proof. intros HPQ H w Hw. apply HPQ. by apply H. Qed.

Lemma leads_bind_l {A B} (P Q : World -> Prop) (m : Js A) (f : A -> Js B) :
  (forall w, P w -> Q w) ->
  preserves P m -> (forall x, leads P (f x) Q) -> leads P (m ≫= f) Q.
Proof.
  intros HPQ Hm Hf w Hw. unfold mbind, Js_bind.
  specialize (Hm w Hw). destruct (m w) as [[a|e] w']; simpl in *.
  - by apply Hf.
  - by apply HPQ.
Qed.

Lemma leads_bind_r {A B} (P Q : World -> Prop) (m : Js A) (f : A -> Js B) :
  leads P m Q -> (forall x, preserves Q (f x)) -> leads P (m ≫= f) Q.
Proof.
  intros Hm Hf w Hw. unfold mbind, Js_bind.
  specialize (Hm w Hw). destruct (m w) as [[a|e] w']; simpl in *.
  - by apply Hf.
  - done.
Qed.

Lemma leads_then_catch (P Q : World -> Prop) (on_ok on_err : Value -> Js Value) s :
  (forall w, P w -> Q w) ->
  (forall v, leads P (on_ok v) Q) ->
  (forall e, preserves P (on_err e)) -> (forall e, preserves Q (on_err e)) ->
  leads P (then_catch on_ok on_err s) Q.
Proof.
  intros HPQ Hok HerrP HerrQ w Hw. destruct s as [v|e]; simpl.
  - specialize (Hok v w Hw). destruct (on_ok v w) as [[a|e] w']; simpl in *; [done|].
    by apply HerrQ.
  - apply HPQ. by apply HerrP.
Qed.

Lemma leads_async P Q (body : Js Promise) w :
  leads P body Q -> P w -> Q (snd (async body w)).
Proof.
  intros Hb H. unfold async. specialize (Hb w H).
  by destruct (body w) as [[p|e] w'].
Qed.

Lemma within_S n w : within n w -> within (S n) w.
Proof. unfold within. lia. Qed.

(** *** What leaves the count alone *)

Lemma new_kc_keeps_chains n : preserves (within n) new_kc.
Proof. intros w H. exact H. Qed.

Lemma new_promise_keeps_chains n : preserves (within n) new_promise.
Proof. intros w H. exact H. Qed.

Lemma clearTimeout_keeps_chains n h : preserves (within n) (clearTimeout h).
Proof.
  intros w H. unfold clearTimeout, modify. simpl. destruct (1 <=? h); [|done].
  unfold within in *. pose proof (chains_clearTimeout w (Z.to_nat (h - 1))). lia.
Qed.

Lemma call_provider_keeps_chains n r c h :
  may_arm {| rqKc := r; rqCall := c; rqHandler := h |} = false ->
  preserves (within n) (call_provider r c h).
Proof.
  intros Hh w H. unfold call_provider, modify. cbn [snd].
  unfold within in *. rewrite chains_call_provider, Hh. lia.
Qed.

Lemma call_provider_adds_one n r c h :
  leads (within n) (call_provider r c h) (within (S n)).
Proof.
  intros w H. unfold call_provider, modify. cbn [snd].
  unfold within in *. rewrite chains_call_provider.
  destruct (may_arm _); lia.
Qed.

(** Closes the leaves of a method that arms nothing. *)
Ltac chain_leaf :=
  idtac;
  lazymatch goal with
  | |- preserves _ new_kc => apply new_kc_keeps_chains
  | |- preserves _ new_promise => apply new_promise_keeps_chains
  | |- preserves _ (clearTimeout _) => apply clearTimeout_keeps_chains
  | |- preserves _ (call_provider _ _ _) => apply call_provider_keeps_chains; reflexivity
  | |- preserves _ _ => fail
  | |- _ => repeat case_match; assumption
  end.

Section OneTimer.
Variable decodeJwt : string -> gmap string Value.
Variables location_origin VUE_APP_PATH : string.

Local Abbreviation invoke := (KeyCloakService.invoke decodeJwt).
Local Abbreviation handle := (KeyCloakService.handle decodeJwt location_origin VUE_APP_PATH).
Local Abbreviation step := (KeyCloakService.step decodeJwt location_origin VUE_APP_PATH).
Local Abbreviation run := (KeyCloakService.run decodeJwt location_origin VUE_APP_PATH).
Local Abbreviation schedules_when_idle :=
  (schedules_when_idle decodeJwt location_origin VUE_APP_PATH).

(** *** What may add one *)

Lemma scheduleRefreshToken_adds_one n ms t :
  leads (within n) (KeyCloakService.scheduleRefreshToken ms t) (within (S n)).
Proof.
  intros w H. rewrite scheduleRefreshToken_run. destruct (can_schedule w t); cbn [snd].
  - unfold within in *.
    change (chains (set_timerId ?h ?v)) with (chains v).
    rewrite chains_setTimeout. lia.
  - by apply within_S.
Qed.

Lemma syncSession_body_keeps_chains n t :
  preserves (within n) (KeyCloakService.syncSessionAndScheduleTokenRefresh_body false t).
Proof.
  unfold KeyCloakService.syncSessionAndScheduleTokenRefresh_body, when.
  pres_with chain_leaf.
Qed.

Lemma syncSession_body_adds_one n isScheduleRefresh t :
  leads (within n)
    (KeyCloakService.syncSessionAndScheduleTokenRefresh_body isScheduleRefresh t)
    (within (S n)).
Proof.
  destruct isScheduleRefresh;
    [|apply leads_weaken; [apply within_S | apply syncSession_body_keeps_chains]].
  unfold KeyCloakService.syncSessionAndScheduleTokenRefresh_body.
  apply leads_bind_l; [apply within_S | apply preserves_get | intros w0].
  destruct (kc_data w0) as [d|];
    [destruct (authenticated d)|];
    [|apply leads_weaken; [apply within_S | pres_with chain_leaf]..].
  apply leads_bind_l; [apply within_S | pres_with chain_leaf | intros _].
  apply leads_bind_r; [|intros _; apply preserves_ret].
  unfold when, KeyCloakService.scheduleRefreshTimer.
  apply scheduleRefreshToken_adds_one.
Qed.

Lemma initSession_body_adds_one n t :
  leads (within n) (KeyCloakService.initSession_body decodeJwt t) (within (S n)).
Proof.
  unfold KeyCloakService.initSession_body.
  do 8 (apply leads_bind_l; [apply within_S | solve [pres_with chain_leaf] | intros ?]).
  apply leads_bind_r; [apply syncSession_body_adds_one | intros _; pres_with chain_leaf].
Qed.

Lemma refreshToken_body_adds_one n isForceRefresh now :
  leads (within n) (KeyCloakService.refreshToken_body isForceRefresh now) (within (S n)).
Proof.
  unfold KeyCloakService.refreshToken_body.
  apply leads_bind_l; [apply within_S | apply preserves_get | intros w0].
  destruct (negb isForceRefresh && _);
    [apply leads_weaken; [apply within_S | pres_with chain_leaf]|].
  destruct (kc w0) as [r|];
    [|apply leads_weaken; [apply within_S | pres_with chain_leaf]].
  apply leads_bind_r; [apply call_provider_adds_one | intros _; pres_with chain_leaf].
Qed.

Lemma initializeToken_body_adds_one n isScheduleRefresh forceLogin :
  leads (within n) (KeyCloakService.initializeToken_body isScheduleRefresh forceLogin)
    (within (S n)).
Proof.
  unfold KeyCloakService.initializeToken_body.
  repeat (apply leads_bind_l; [apply within_S | solve [pres_with chain_leaf] | intros ?]).
  apply leads_bind_r; [apply call_provider_adds_one | intros _; pres_with chain_leaf].
Qed.

Lemma timer_callback_adds_one n tm :
  leads (within n) (KeyCloakService.timer_callback tm) (within (S n)).
Proof.
  unfold KeyCloakService.timer_callback.
  repeat (apply leads_bind_l; [apply within_S | solve [pres_with chain_leaf] | intros ?]).
  match goal with
  | |- leads _ (match kc ?v with _ => _ end) _ => destruct (kc v)
  end.
  - apply call_provider_adds_one.
  - apply leads_weaken; [apply within_S | apply preserves_throw].
Qed.

(** The callbacks of a provider call that may arm a timer arm one at
    most; the others arm none. *)
Lemma handle_adds_one n h s t :
  leads (within n) (handle h s t) (within (S n)).
Proof.
  destruct h as [p | p url sm | p | | p isScheduleRefresh | early].
  - apply leads_weaken; [apply within_S | pres_with chain_leaf].
  - apply leads_weaken; [apply within_S | pres_with chain_leaf].
  - apply leads_weaken; [apply within_S | pres_with chain_leaf].
  - unfold KeyCloakService.handle.
    apply leads_then_catch; [apply within_S | intros v | intros e | intros e];
      [|pres_with chain_leaf..].
    unfold returns_nothing.
    apply leads_bind_r; [|intros _; apply preserves_ret].
    unfold when. destruct (truthy v);
      [|apply leads_weaken; [apply within_S | apply preserves_ret]].
    intros w Hw. unfold KeyCloakService.forget, KeyCloakService.initSession. cbn [snd].
    by apply (leads_async (within n) (within (S n))
                (KeyCloakService.initSession_body decodeJwt t) w
                (initSession_body_adds_one n t)).
  - unfold KeyCloakService.handle.
    apply leads_then_catch; [apply within_S | intros v | intros e | intros e];
      [|pres_with chain_leaf..].
    unfold returns_nothing.
    apply leads_bind_r; [|intros _; apply preserves_ret].
    intros w Hw. unfold KeyCloakService.resolve_with.
    pose proof (syncSession_body_adds_one n isScheduleRefresh t w Hw) as Hb.
    destruct (KeyCloakService.syncSessionAndScheduleTokenRefresh_body _ _ w)
      as [[v0|e0] w']; cbn [snd] in Hb.
    + assert (Hs : preserves (within (S n)) (resolve p v0)) by pres_with chain_leaf.
      by apply Hs.
    + assert (Hs : preserves (within (S n)) (reject p e0)) by pres_with chain_leaf.
      by apply Hs.
  - intros w Hw.
    destruct (handle_scheduled_refresh decodeJwt location_origin VUE_APP_PATH early s t w)
      as [Hsame Hone].
    unfold within, chains in *. rewrite Hsame. lia.
Qed.

Lemma handle_keeps_chains n h s t rq :
  rqHandler rq = h -> may_arm rq = false -> preserves (within n) (handle h s t).
Proof.
  intros <- Hq. unfold may_arm in Hq.
  destruct (rqHandler rq) as [p | p url sm | p | | p isScheduleRefresh | early];
    try discriminate Hq; [pres_with chain_leaf.. |].
  subst isScheduleRefresh. unfold KeyCloakService.handle.
  apply preserves_then_catch; intros ?; [|pres_with chain_leaf].
  apply preserves_returns_nothing. apply preserves_resolve_with;
    [apply syncSession_body_keeps_chains | intros ?; pres_with chain_leaf].
Qed.

(** *** The methods *)

Lemma invoke_keeps_chains n op w :
  schedules op = false -> within n w -> within n (invoke op w).
Proof.
  intros Hop Hw.
  destruct op as [url | hint | t | | redirectUrl | isForceRefresh now | allowed disabled
                 | isScheduleRefresh forceLogin | isScheduleRefresh t | early t];
    try discriminate Hop; cbn [schedules] in Hop; try subst isScheduleRefresh;
    unfold KeyCloakService.invoke; cbv beta iota;
    unfold KeyCloakService.initializeKeyCloak, KeyCloakService.logout,
      KeyCloakService.initializeToken, KeyCloakService.syncSessionAndScheduleTokenRefresh.
  - apply preserves_async; [pres_with chain_leaf | done].
  - apply preserves_async; [pres_with chain_leaf | done].
  - apply (preserves_snd (within n)); [pres_with chain_leaf | done].
  - apply preserves_async; [pres_with chain_leaf | done].
  - apply (preserves_snd (within n)); [pres_with chain_leaf | done].
  - apply preserves_async; [|done].
    unfold KeyCloakService.initializeToken_body.
    repeat (apply preserves_bind; [solve [pres_with chain_leaf] | intros ?]).
    pres_with chain_leaf.
  - apply preserves_async; [|done].
    apply preserves_bind; [apply syncSession_body_keeps_chains | intros ?; pres_with chain_leaf].
Qed.

Lemma invoke_adds_one n op w : within n w -> within (S n) (invoke op w).
Proof.
  intros Hw. destruct (schedules op) eqn:Hop;
    [|apply within_S; by apply invoke_keeps_chains].
  destruct op as [url | hint | t | | redirectUrl | isForceRefresh now | allowed disabled
                 | isScheduleRefresh forceLogin | isScheduleRefresh t | early t];
    try discriminate Hop;
    unfold KeyCloakService.invoke; cbv beta iota;
    unfold KeyCloakService.initSession, KeyCloakService.refreshToken,
      KeyCloakService.initializeToken, KeyCloakService.syncSessionAndScheduleTokenRefresh.
  - by apply (leads_async (within n) (within (S n)) _ w (initSession_body_adds_one n t)).
  - by apply (leads_async (within n) (within (S n)) _ w
                (refreshToken_body_adds_one n isForceRefresh now)).
  - by apply (leads_async (within n) (within (S n)) _ w
                (initializeToken_body_adds_one n isScheduleRefresh forceLogin)).
  - apply (leads_async (within n) (within (S n))); [|done].
    apply leads_bind_r; [apply syncSession_body_adds_one | intros ?; pres_with chain_leaf].
  - unfold KeyCloakService.scheduleRefreshTimer.
    by apply scheduleRefreshToken_adds_one.
Qed.

(** *** The event loop *)

Lemma step_keeps_chains ev w :
  match ev with
  | KeyCloakService.Invoke op => schedules op = true -> chains w = 0%nat
  | _ => True
  end ->
  within 1 w -> within 1 (step ev w).
Proof.
  intros Hev Hw. destruct ev as [op | h | rid s d t]; simpl.
  - destruct (schedules op) eqn:Hop.
    + apply invoke_adds_one. unfold within. rewrite Hev by done. lia.
    + by apply invoke_keeps_chains.
  - destruct (1 <=? h); [|done].
    destruct (timers w !! Z.to_nat (h - 1)) as [[tm|]|] eqn:Hslot; [|done|done].
    apply timer_callback_adds_one. unfold within in *.
    pose proof (chains_expired _ _ _ Hslot). lia.
  - destruct (requests w !! rid) as [[rq|]|] eqn:Hslot; [|done|done].
    pose proof (chains_answered w rid rq
                  (alter (KeyCloakService.set_data d) (rqKc rq) (heap w)) Hslot) as Hless.
    destruct (may_arm rq) eqn:Hq.
    + apply handle_adds_one. unfold within in *. lia.
    + apply (handle_keeps_chains 1 _ s t rq); [done|done|]. unfold within in *. lia.
Qed.

Lemma schedules_when_idle_take k evs w :
  schedules_when_idle evs w -> schedules_when_idle (take k evs) w.
Proof.
  revert k w. induction evs as [|ev evs IH]; intros [|k] w H; try done.
  destruct H as [Hev H]. split; [exact Hev | by apply IH].
Qed.

Lemma run_keeps_chains evs w :
  within 1 w -> schedules_when_idle evs w -> within 1 (run evs w).
Proof.
  revert w. induction evs as [|ev evs IH]; intros w Hw Hevs; [done|].
  destruct Hevs as [Hev Hevs]. change (within 1 (run evs (step ev w))).
  apply IH; [by apply step_keeps_chains | exact Hevs].
Qed.

(** C1, amended: as long as the application starts a method that
    schedules a refresh ([scheduleRefreshTimer], [initSession],
    [refreshToken], and [initializeToken] or
    [syncSessionAndScheduleTokenRefresh] asked to schedule) only while no
    refresh timer is pending and no provider call that may arm one is
    outstanding, at most one refresh timer is pending at any instant,
    whatever timers expire, whatever the provider answers and whatever
    other methods are called in between: the re-arm after a successful
    scheduled refresh takes place after the previous timer has expired. *)
Theorem refresh_timer_chain (evs : list KeyCloakService.Event) (w : World) :
  (chains w <= 1)%nat ->
  schedules_when_idle evs w ->
  forall k, (length (pending_timers (run (take k evs) w)) <= 1)%nat.
Proof.
  intros Hw Hevs k.
  pose proof (run_keeps_chains (take k evs) w Hw (schedules_when_idle_take k evs w Hevs))
    as Hrun.
  unfold within, chains in Hrun. lia.
Qed.

End OneTimer.

Lemma refresh_timer_chain_witness :
  (length (pending_timers
             (Sample.run [KeyCloakService.Invoke KeyCloakService.OpGetUserInfo;
                          KeyCloakService.Fire 1;
                          KeyCloakService.Settle 1 (Rejected (VError "Network Error"))
                            Sample.tokens_A Sample.t0;
                          KeyCloakService.Invoke
                            (KeyCloakService.OpScheduleRefreshTimer 0 Sample.t0);
                          KeyCloakService.Invoke (KeyCloakService.OpLogout None)]
                Sample.signed_in)) <= 1)%nat.
Proof.
  apply (refresh_timer_chain Sample.decodeJwt Sample.origin Sample.app_path
           [KeyCloakService.Invoke KeyCloakService.OpGetUserInfo;
            KeyCloakService.Fire 1;
            KeyCloakService.Settle 1 (Rejected (VError "Network Error"))
              Sample.tokens_A Sample.t0;
            KeyCloakService.Invoke (KeyCloakService.OpScheduleRefreshTimer 0 Sample.t0);
            KeyCloakService.Invoke (KeyCloakService.OpLogout None)]
           Sample.signed_in) with (k := 5%nat).
  - vm_compute. lia.
  - vm_compute. repeat split; try discriminate.
Defined.

(** C1 fails as stated: signed in, one refresh timer pending; a call of
    [scheduleRefreshTimer] arms a second timer and the first one stays
    pending. *)
Lemma second_schedule_stacks_timers :
  let w := snd (KeyCloakService.scheduleRefreshTimer 0 Sample.t0 Sample.signed_in) in
  pending_timers Sample.signed_in = [{| tmDelay := 990000; tmEarly := 10000 |}]
  /\ timerId Sample.signed_in = 1
  /\ pending_timers w = [{| tmDelay := 990000; tmEarly := 10000 |};
                         {| tmDelay := 990000; tmEarly := 10000 |}]
  /\ timers w !! 0%nat = Some (Some {| tmDelay := 990000; tmEarly := 10000 |})
  /\ timerId w = 2
  /\ ~ (length (pending_timers w) <= 1)%nat.
Proof. vm_compute. repeat split; try reflexivity. lia. Qed.

(** The other methods that schedule do the same when a timer is pending:
    [initSession] and [syncSessionAndScheduleTokenRefresh] at once, a
    forced [refreshToken] and an [initializeToken] asked to schedule once
    the provider has answered. *)
Lemma scheduling_calls_stack_timers :
  length (pending_timers
            (Sample.run [KeyCloakService.Invoke (KeyCloakService.OpInitSession Sample.t0)]
               Sample.signed_in)) = 2%nat
  /\ length (pending_timers
               (Sample.run
                  [KeyCloakService.Invoke
                     (KeyCloakService.OpSyncSessionAndScheduleTokenRefresh true Sample.t0)]
                  Sample.signed_in)) = 2%nat
  /\ pending_timers
       (Sample.run [KeyCloakService.Invoke (KeyCloakService.OpRefreshToken true 1000000);
                    KeyCloakService.Settle 1 (Fulfilled (VBool true))
                      Sample.tokens_B Sample.t0]
          Sample.signed_in)
     = [{| tmDelay := 990000; tmEarly := 10000 |};
        {| tmDelay := 1990000; tmEarly := 10000 |}]
  /\ length (pending_timers
               (Sample.run
                  [KeyCloakService.Invoke (KeyCloakService.OpInitializeToken true false);
                   KeyCloakService.Settle 1 (Fulfilled (VBool true))
                     Sample.tokens_A Sample.t0]
                  Sample.signed_in)) = 2%nat.
Proof. vm_compute. repeat split. Qed.

(** * Further properties of the service *)

(** ** Clearing and synchronising session storage *)

Lemma without_tokens_idemp (s : Storage) : without_tokens (without_tokens s) = without_tokens s.
Proof.
  destruct (without_tokens_lookup s) as (H1 & H2 & H3).
  unfold without_tokens at 1.
  rewrite (delete_id _ KeyCloakToken) by done.
  rewrite (delete_id _ KeyCloakIdToken) by done.
  by rewrite (delete_id _ KeyCloakRefreshToken).
Qed.

Lemma without_tokens_other (s : Storage) k :
  k <> KeyCloakToken -> k <> KeyCloakIdToken -> k <> KeyCloakRefreshToken ->
  without_tokens s !! k = s !! k.
Proof. intros. unfold without_tokens. by rewrite !lookup_delete_ne. Qed.

(** X1: [clearSession] removes the three tokens from session storage and
    leaves every other key as it is (the synced flag among them); it
    resets the auth store when one is active; it cancels no timer, drops
    no provider call and keeps the client and the decoded-token cache;
    doing it twice is doing it once. *)
Theorem clearSession_effect (w : World) :
  let w' := snd (KeyCloakService.clearSession w) in
  fst (KeyCloakService.clearSession w) = Normal tt
  /\ session w' !! KeyCloakToken = None
  /\ session w' !! KeyCloakIdToken = None
  /\ session w' !! KeyCloakRefreshToken = None
  /\ (forall k, k <> KeyCloakToken -> k <> KeyCloakIdToken -> k <> KeyCloakRefreshToken ->
                session w' !! k = session w !! k)
  /\ authStore w' = (fun _ => empty_AuthState) <$> authStore w
  /\ timers w' = timers w /\ requests w' = requests w /\ promises w' = promises w
  /\ kc w' = kc w /\ heap w' = heap w /\ parsedToken w' = parsedToken w
  /\ KeyCloakService.clearSession w' = (Normal tt, w').
Proof.
  rewrite clearSession_run. cbn [fst snd].
  destruct (without_tokens_lookup (session w)) as (H1 & H2 & H3).
  split; [done|]. unfold cleared.
  destruct (authStore w) as [a|] eqn:Ha; simpl;
    (repeat (split; [first [done | by apply without_tokens_other]|]));
    rewrite clearSession_run; unfold cleared; simpl; try rewrite Ha;
    by rewrite without_tokens_idemp.
Qed.

Lemma str_or_undefined_fix o x :
  str_or_undefined o = Some x -> str_or_undefined (Some x) = Some x.
Proof.
  destruct o as [y|]; simpl; [|done].
  destruct (String.eqb y "") eqn:Hy; [done|]. intros [= ->]. by rewrite Hy.
Qed.

Lemma stored_persist w k k' tok s :
  KeyCloakService.stored k (set_session (persist k' tok s) w)
  = if decide (k' = k) then read_back tok (str_or_undefined (s !! k))
    else str_or_undefined (s !! k).
Proof.
  unfold KeyCloakService.stored, ConfigHelper.getFromSession, persist, read_back. simpl.
  destruct (str_or_undefined tok) as [x|] eqn:Hx.
  - destruct (decide (k' = k)) as [->|Hne].
    + rewrite lookup_insert_eq. by eapply str_or_undefined_fix.
    + by rewrite lookup_insert_ne.
  - by destruct (decide (k' = k)).
Qed.

Lemma stored_after_sync (w : World) (d : KeycloakData) :
  kc_data w = Some d ->
  let w' := snd (KeyCloakService.syncSessionStorage w) in
  KeyCloakService.stored KeyCloakToken w'
  = read_back (token d) (KeyCloakService.stored KeyCloakToken w)
  /\ KeyCloakService.stored KeyCloakRefreshToken w'
     = read_back (refreshToken d) (KeyCloakService.stored KeyCloakRefreshToken w)
  /\ KeyCloakService.stored KeyCloakIdToken w'
     = read_back (idToken d) (KeyCloakService.stored KeyCloakIdToken w).
Proof.
  intros Hd w'. subst w'. rewrite (syncSessionStorage_run w d Hd). cbn [snd].
  unfold KeyCloakService.stored, ConfigHelper.getFromSession, persisted. simpl.
  assert (Hp : forall k k' tok (s : Storage),
             str_or_undefined (persist k' tok s !! k)
             = if decide (k' = k) then read_back tok (str_or_undefined (s !! k))
               else str_or_undefined (s !! k)).
  { intros k k' tok s. exact (stored_persist w k k' tok s). }
  repeat split; rewrite lookup_insert_ne by done; rewrite !Hp;
    repeat (case_decide; try done).
Qed.

(** X2: what [syncSessionStorage] writes is what is read back.  With a
    client present, each of the three tokens that the client holds (and
    that is not empty) is afterwards read from session storage as it is;
    a token the client does not hold leaves the stored one as it was.
    The session is marked as synced, and no other key changes. *)
Theorem syncSessionStorage_read_back (w : World) (d : KeycloakData) :
  kc_data w = Some d ->
  let w' := snd (KeyCloakService.syncSessionStorage w) in
  KeyCloakService.stored KeyCloakToken w'
  = read_back (token d) (KeyCloakService.stored KeyCloakToken w)
  /\ KeyCloakService.stored KeyCloakRefreshToken w'
     = read_back (refreshToken d) (KeyCloakService.stored KeyCloakRefreshToken w)
  /\ KeyCloakService.stored KeyCloakIdToken w'
     = read_back (idToken d) (KeyCloakService.stored KeyCloakIdToken w)
  /\ session w' !! SessionSynced = Some "true"
  /\ (forall k, k <> KeyCloakToken -> k <> KeyCloakRefreshToken -> k <> KeyCloakIdToken ->
                k <> SessionSynced -> session w' !! k = session w !! k).
Proof.
  intros Hd w'. destruct (stored_after_sync w d Hd) as (H1 & H2 & H3).
  split; [exact H1|]. split; [exact H2|]. split; [exact H3|].
  subst w'. rewrite (syncSessionStorage_run w d Hd). cbn [snd]. simpl.
  unfold persisted. split; [apply lookup_insert_eq|].
  intros k K1 K2 K3 K4. rewrite lookup_insert_ne by done.
  unfold persist.
  repeat (destruct (str_or_undefined _); [rewrite lookup_insert_ne by done|]);
    done.
Qed.

Lemma syncSessionStorage_read_back_witness :
  KeyCloakService.stored KeyCloakToken
    (snd (KeyCloakService.syncSessionStorage (Sample.after_init false Sample.tokens_B)))
  = Some "B".
Proof.
  destruct (syncSessionStorage_read_back (Sample.after_init false Sample.tokens_B)
              Sample.tokens_B) as [H _]; [reflexivity|].
  rewrite H. reflexivity.
Defined.

(** Without a client, [syncSessionStorage] only marks the session as not
    synced. *)
Lemma syncSessionStorage_without_client w :
  kc_data w = None ->
  KeyCloakService.syncSessionStorage w
  = (Normal tt, set_session (<[SessionSynced := "false"]> (session w)) w).
Proof.
  intros Hd. unfold KeyCloakService.syncSessionStorage, KeyCloakService.addToSession.
  js_unfold. by rewrite Hd.
Qed.

(** ** Initialisation *)

Lemma initializeKeyCloak_run hint w :
  KeyCloakService.initializeKeyCloak hint w
  = (Later (length (promises w)),
     set_requests
       (requests w ++ [Some {| rqKc := length (heap w);
                               rqCall := CallInit initializeKeyCloak_options;
                               rqHandler := HInitializeKeyCloak (length (promises w)) |}])
       (set_promises (promises w ++ [None])
          (set_heap
             (alter (fun k => {| config := config k; data := data k;
                                 login := KeyCloakService.patched_login (login k) hint |})
                (length (heap w)) (heap w ++ [new_Keycloak (keycloakConfigUrl w)])%list)
             (set_kc (Some (length (heap w))) (cleared w))))).
Proof.
  unfold KeyCloakService.initializeKeyCloak, KeyCloakService.initializeKeyCloak_body.
  unfold async. rewrite (bind_normal _ _ _ _ _ (clearSession_run w)).
  destruct (without_tokens_lookup (session w)) as (H1 & H2 & H3).
  js_run. unfold KeyCloakService.stored, ConfigHelper.getFromSession, cleared.
  destruct (authStore w); simpl; by rewrite H1, H2, H3.
Qed.

Section Initialisation.
Variable decodeJwt : string -> gmap string Value.
Variables location_origin VUE_APP_PATH : string.

Local Abbreviation step := (KeyCloakService.step decodeJwt location_origin VUE_APP_PATH).

(** X3: [initializeKeyCloak] never resumes a stored session: it clears
    the session before it reads the stored tokens, so, whatever session
    storage holds, the [init] call it issues carries no access, refresh or
    id token, and the three tokens are gone from session storage.  The
    caller's promise is the provider's: it settles as the [init] call
    does, fulfilled or rejected. *)
Theorem initializeKeyCloak_starts_afresh (hint : string) (w : World) :
  let p := length (promises w) in
  let w' := snd (KeyCloakService.initializeKeyCloak hint w) in
  fst (KeyCloakService.initializeKeyCloak hint w) = Later p
  /\ in_flight w'
     = (in_flight w ++ [{| rqKc := length (heap w);
                          rqCall := CallInit initializeKeyCloak_options;
                          rqHandler := HInitializeKeyCloak p |}])%list
  /\ KeyCloakService.stored KeyCloakToken w' = None
  /\ KeyCloakService.stored KeyCloakRefreshToken w' = None
  /\ KeyCloakService.stored KeyCloakIdToken w' = None
  /\ KeyCloakService.isInitialized w' = true
  /\ promises w' !! p = Some None
  /\ (forall s d t,
        promises (step (KeyCloakService.Settle (length (requests w)) s d t) w') !! p
        = Some (Some s)).
Proof.
  intros p w'. subst p w'. rewrite initializeKeyCloak_run. cbn [fst snd].
  destruct (without_tokens_lookup (session w)) as (H1 & H2 & H3).
  unfold cleared, KeyCloakService.stored, ConfigHelper.getFromSession, in_flight.
  destruct (authStore w) as [a|]; simpl; rewrite H1, H2, H3, omap_id_snoc_Some;
    (repeat (split; [done|]));
    (split; [by rewrite lookup_app_r, Nat.sub_diag|]);
    intros s d t; rewrite lookup_app_r, Nat.sub_diag by done; simpl; js_run;
    rewrite lookup_app_r, Nat.sub_diag by done; simpl;
    apply list_lookup_insert_eq; rewrite length_app; simpl; lia.
Qed.

End Initialisation.

Lemma initializeToken_run isScheduleRefresh forceLogin w :
  KeyCloakService.initializeToken isScheduleRefresh forceLogin w
  = (Later (length (promises w)), initializeToken_started isScheduleRefresh forceLogin w).
Proof. reflexivity. Qed.

(** X4: [initializeToken] resumes from session storage.  The [init]
    call it issues on a fresh client asks for [login-required] when
    [forceLogin] is set and for [check-sso] otherwise, and carries the
    stored access, refresh and id tokens (an empty one counts as absent);
    the session is marked as not synced, nothing else is written, and the
    caller's promise is pending.  In particular the tokens a previous
    [syncSessionStorage] wrote for client state [d] are the ones resumed. *)
Theorem initializeToken_resumes (isScheduleRefresh forceLogin : bool) (w : World) :
  let p := length (promises w) in
  let w' := snd (KeyCloakService.initializeToken isScheduleRefresh forceLogin w) in
  fst (KeyCloakService.initializeToken isScheduleRefresh forceLogin w) = Later p
  /\ promises w' !! p = Some None
  /\ in_flight w'
     = (in_flight w
        ++ [{| rqKc := length (heap w);
               rqCall := CallInit
                 {| onLoad := if forceLogin then LoginRequired else CheckSso;
                    checkLoginIframe := false; optTimeSkew := 0;
                    optToken := str_or_undefined (session w !! KeyCloakToken);
                    optRefreshToken := str_or_undefined (session w !! KeyCloakRefreshToken);
                    optIdToken := str_or_undefined (session w !! KeyCloakIdToken);
                    pkceMethod := "S256" |};
               rqHandler := HInitializeToken p isScheduleRefresh |}])%list
  /\ session w' = <[SessionSynced := "false"]> (session w)
  /\ timers w' = timers w
  /\ (forall v d, kc_data v = Some d ->
        w = snd (KeyCloakService.syncSessionStorage v) ->
        str_truthy (token d) = true -> str_truthy (refreshToken d) = true ->
        str_truthy (idToken d) = true ->
        initializeToken_options forceLogin w
        = {| onLoad := if forceLogin then LoginRequired else CheckSso;
             checkLoginIframe := false; optTimeSkew := 0;
             optToken := token d; optRefreshToken := refreshToken d;
             optIdToken := idToken d; pkceMethod := "S256" |}).
Proof.
  intros p w'. subst p w'. rewrite initializeToken_run. cbn [fst snd].
  split; [done|]. split; [simpl; by rewrite lookup_app_r, Nat.sub_diag|].
  split; [unfold in_flight; simpl; apply omap_id_snoc_Some|].
  split; [done|]. split; [done|].
  intros v d Hd -> Ht Hr Hi.
  destruct (stored_after_sync v d Hd) as (H1 & H2 & H3).
  unfold initializeToken_options. rewrite H1, H2, H3. unfold read_back.
  unfold str_truthy in Ht, Hr, Hi.
  assert (Hfix : forall o, match str_or_undefined o with Some _ => true | None => false end
                           = true -> str_or_undefined o = o).
  { intros [x|]; simpl; [|done]. by destruct (String.eqb x ""). }
  rewrite (Hfix _ Ht), (Hfix _ Hr), (Hfix _ Hi).
  destruct (token d), (refreshToken d), (idToken d); done.
Qed.

Lemma can_schedule_data w d t :
  kc_data w = Some d -> can_schedule w t = guards_pass d t.
Proof.
  intros Hd. unfold guards_pass, can_schedule, KeyCloakService.refreshTokenExpiresIn,
    KeyCloakService.expiresIn.
  by rewrite Hd.
Qed.

Lemma expiresIn_data w d now :
  kc_data w = Some d -> KeyCloakService.expiresIn w now = access_margin d now.
Proof.
  intros Hd. unfold access_margin, KeyCloakService.expiresIn. by rewrite Hd.
Qed.

Lemma scheduleRefreshToken_data ms t w d :
  kc_data w = Some d ->
  KeyCloakService.scheduleRefreshToken ms t w
  = if guards_pass d t
    then (Normal tt, armed (access_margin d (now2 t) * 1000 - ms) ms w)
    else (Thrown KeyCloakService.RefreshTokenExpired, w).
Proof.
  intros Hd. rewrite scheduleRefreshToken_run.
  by rewrite (can_schedule_data w d t Hd), (expiresIn_data w d _ Hd).
Qed.

(** The body of [syncSessionAndScheduleTokenRefresh], case by case. *)
Lemma syncSession_body_run isScheduleRefresh t w d :
  kc_data w = Some d ->
  KeyCloakService.syncSessionAndScheduleTokenRefresh_body isScheduleRefresh t w
  = if authenticated d then
      if isScheduleRefresh then
        if guards_pass d t
        then (Normal (value_of_token (token d)),
              armed (access_margin d (now2 t) * 1000 - 10000) 10000
                (set_session (persisted d (session w)) w))
        else (Thrown KeyCloakService.RefreshTokenExpired,
              set_session (persisted d (session w)) w)
      else (Normal (value_of_token (token d)), set_session (persisted d (session w)) w)
    else (Normal KeyCloakService.NOT_AUTHENTICATED, cleared w).
Proof.
  intros Hd. unfold KeyCloakService.syncSessionAndScheduleTokenRefresh_body.
  js_unfold. rewrite Hd.
  destruct (authenticated d); [|by rewrite clearSession_run].
  rewrite (syncSessionStorage_run w d Hd).
  destruct isScheduleRefresh; [|done].
  unfold KeyCloakService.scheduleRefreshTimer.
  rewrite (scheduleRefreshToken_data _ t _ d) by exact Hd.
  by destruct (guards_pass d t).
Qed.

Lemma syncSession_body_without_client isScheduleRefresh t w :
  kc_data w = None ->
  KeyCloakService.syncSessionAndScheduleTokenRefresh_body isScheduleRefresh t w
  = (Normal KeyCloakService.NOT_AUTHENTICATED, cleared w).
Proof.
  intros Hd. unfold KeyCloakService.syncSessionAndScheduleTokenRefresh_body.
  js_unfold. by rewrite Hd, clearSession_run.
Qed.

Section InitializeToken.
Variable decodeJwt : string -> gmap string Value.
Variables location_origin VUE_APP_PATH : string.

Local Abbreviation step := (KeyCloakService.step decodeJwt location_origin VUE_APP_PATH).



(** X6: when the provider fulfils the [init] call of [initializeToken],
    the promise settles by the state [d] the client is left in, not by
    the value the call was fulfilled with: not authenticated, it is
    fulfilled with the error value NOT_AUTHENTICATED and the stored tokens
    are removed; authenticated, the tokens are stored and it is fulfilled
    with the access token, one timer being armed with a margin of 10 s
    when scheduling is requested, unless scheduling is requested and an
    expiry guard fails, in which case it is rejected with 'Refresh Token
    Expired. No more token refreshes', not wrapped. *)
Theorem initializeToken_init_fulfilled (isScheduleRefresh forceLogin : bool) (w : World)
    (v : Value) (d : KeycloakData) (t : Readings) :
  let p := length (promises w) in
  let w1 := snd (KeyCloakService.initializeToken isScheduleRefresh forceLogin w) in
  let w2 := step (KeyCloakService.Settle (length (requests w)) (Fulfilled v) d t) w1 in
  promises w2 !! p = Some (Some (initializeToken_outcome isScheduleRefresh d t))
  /\ session w2
     = (if authenticated d then persisted d (session w1) else without_tokens (session w1))
  /\ pending_timers w2
     = (pending_timers w
        ++ if authenticated d && isScheduleRefresh && guards_pass d t
           then [{| tmDelay := access_margin d (now2 t) * 1000 - 10000; tmEarly := 10000 |}]
           else [])%list
  /\ in_flight w2 = in_flight w.
Proof.
  intros p w1 w2. subst p w1 w2. rewrite initializeToken_run. cbn [snd].
  unfold initializeToken_started, KeyCloakService.step. simpl.
  rewrite lookup_app_r, Nat.sub_diag by done. simpl.
  unfold then_catch.
  match goal with
  | |- context [returns_nothing _ ?v] => set (v0 := v)
  end.
  assert (Hd : kc_data v0 = Some d).
  { unfold kc_data, the_kc. simpl.
    rewrite list_lookup_alter_eq, lookup_app_r, Nat.sub_diag by done. reflexivity. }
  assert (Hpending : promises v0 !! length (promises w) = Some None).
  { simpl. by rewrite lookup_app_r, Nat.sub_diag. }
  unfold returns_nothing, KeyCloakService.resolve_with. js_unfold.
  rewrite (syncSession_body_run _ _ _ d Hd).
  unfold initializeToken_outcome, in_flight, pending_timers, resolve, reject, settle.
  destruct (authenticated d); [destruct isScheduleRefresh; [destruct (guards_pass d t)|]|];
    unfold cleared; simpl; [| | |destruct (authStore w); simpl];
    rewrite lookup_app_r, Nat.sub_diag by done; simpl;
    (split; [apply list_lookup_insert_eq; rewrite length_app; simpl; lia|]);
    (split; [done|]);
    (split; [first [apply omap_id_snoc_Some | by rewrite app_nil_r]|]);
    apply omap_id_take_slot.
Qed.

End InitializeToken.


(** ** Scheduling *)

Lemma ceil_seconds_bounds ms : ms <= 1000 * ceil_seconds ms < ms + 1000.
Proof.
  unfold ceil_seconds.
  pose proof (Z.div_mod (- ms) 1000 ltac:(lia)) as Hdm.
  pose proof (Z.mod_pos_bound (- ms) 1000 ltac:(lia)) as Hmod.
  lia.
Qed.

(** X7: when [scheduleRefreshTimer] arms a timer, it keeps what was
    pending, its early margin is the requested one in milliseconds and at
    least 10 s, and the timer is due, by the local clock, no later than
    that margin before the access token expires (expiry corrected by the
    clock skew), and less than one second earlier than that.  The delay
    itself has no lower bound: it is negative when the token expires
    within the margin. *)
Theorem scheduleRefreshTimer_due (refreshEarlyTime : Z) (t : Readings) (w : World)
    (d : KeycloakData) (parsed : KeycloakTokenParsed) (e s : Z) :
  kc_data w = Some d ->
  tokenParsed d = Some parsed -> exp parsed = Some e -> timeSkew d = Some s ->
  can_schedule w t = true ->
  exists tm,
    KeyCloakService.scheduleRefreshTimer refreshEarlyTime t w
    = (Normal tt, armed (tmDelay tm) (tmEarly tm) w)
    /\ pending_timers (armed (tmDelay tm) (tmEarly tm) w) = (pending_timers w ++ [tm])%list
    /\ tmEarly tm = Z.max 10 refreshEarlyTime * 1000
    /\ 10000 <= tmEarly tm
    /\ now2 t + tmDelay tm + tmEarly tm <= (e + s) * 1000
    /\ (e + s) * 1000 < now2 t + tmDelay tm + tmEarly tm + 1000.
Proof.
  intros Hd Hparsed He Hs Hcan.
  exists {| tmDelay := KeyCloakService.expiresIn w (now2 t) * 1000
                       - Z.max 10 refreshEarlyTime * 1000;
            tmEarly := Z.max 10 refreshEarlyTime * 1000 |}.
  split; [by rewrite scheduleRefreshTimer_run, Hcan|].
  split; [unfold pending_timers, armed; simpl; apply omap_id_snoc_Some|].
  split; [done|]. simpl. split; [lia|].
  unfold can_schedule in Hcan. apply andb_true_iff in Hcan as [_ Hpos].
  apply Z.leb_le in Hpos. revert Hpos.
  unfold KeyCloakService.expiresIn. rewrite Hd, Hparsed, He, Hs.
  pose proof (ceil_seconds_bounds (now2 t)).
  destruct (e =? 0); lia.
Qed.

Lemma scheduleRefreshTimer_due_witness :
  exists tm,
    KeyCloakService.scheduleRefreshTimer 30 Sample.t0
      (Sample.after_init false Sample.tokens_skewed)
    = (Normal tt,
       armed (tmDelay tm) (tmEarly tm) (Sample.after_init false Sample.tokens_skewed))
    /\ tmEarly tm = 30000.
Proof.
  destruct (scheduleRefreshTimer_due 30 Sample.t0
              (Sample.after_init false Sample.tokens_skewed) Sample.tokens_skewed
              {| exp := Some 2000 |} 2000 3)
    as (tm & Hrun & _ & Hearly & _); try reflexivity.
  exists tm. split; [exact Hrun | exact Hearly].
Defined.

Section Chain.
Variable decodeJwt : string -> gmap string Value.
Variables location_origin VUE_APP_PATH : string.

Local Abbreviation step := (KeyCloakService.step decodeJwt location_origin VUE_APP_PATH).
Local Abbreviation run := (KeyCloakService.run decodeJwt location_origin VUE_APP_PATH).

(** A pending timer expires while the service has a client. *)
Lemma fire_run w h tm r :
  1 <= h -> timers w !! Z.to_nat (h - 1) = Some (Some tm) -> kc w = Some r ->
  step (KeyCloakService.Fire h) w
  = set_requests
      (requests w ++ [Some {| rqKc := r; rqCall := CallUpdateToken (-1);
                              rqHandler := HScheduledRefresh (tmEarly tm) |}])
      (set_counter (counter w + 1)
         (set_timers (<[Z.to_nat (h - 1) := None]> (timers w)) w)).
Proof.
  intros Hh Hslot Hkc. unfold KeyCloakService.step.
  apply Z.leb_le in Hh. rewrite Hh, Hslot.
  unfold KeyCloakService.timer_callback. js_run. rewrite Hkc. by js_run.
Qed.

(** The forced refresh of a timer is answered while its client is the
    current one. *)
Lemma scheduled_refresh_answered v rid r c early k s d t :
  requests v !! rid
  = Some (Some {| rqKc := r; rqCall := c; rqHandler := HScheduledRefresh early |}) ->
  kc v = Some r -> heap v !! r = Some k ->
  step (KeyCloakService.Settle rid s d t) v
  = let v0 := set_requests (<[rid := None]> (requests v))
                (set_heap (alter (KeyCloakService.set_data d) r (heap v)) v) in
    let cancelled := set_timers
                       (if 1 <=? timerId v
                        then <[Z.to_nat (timerId v - 1) := None]> (timers v)
                        else timers v) in
    match s with
    | Fulfilled x =>
        if truthy x then
          if guards_pass d t
          then armed (access_margin d (now2 t) * 1000 - early) early
                 (set_session (persisted d (session v)) v0)
          else cancelled (set_session (persisted d (session v)) v0)
        else v0
    | Rejected _ => cancelled v0
    end.
Proof.
  intros Hrq Hkc Hk. unfold KeyCloakService.step. rewrite Hrq. cbn [rqHandler rqKc].
  set (v0 := set_requests _ _).
  assert (Hd : kc_data v0 = Some d).
  { unfold kc_data, the_kc. simpl. rewrite Hkc. simpl.
    by rewrite list_lookup_alter_eq, Hk. }
  unfold KeyCloakService.handle, then_catch.
  destruct s as [x|e].
  - destruct (truthy x); [|by js_run].
    unfold returns_nothing, when. js_unfold.
    rewrite (syncSessionStorage_run v0 d Hd).
    rewrite (scheduleRefreshToken_data early t _ d) by exact Hd.
    destruct (guards_pass d t); [done|].
    unfold clearTimeout, modify. simpl. by destruct (1 <=? timerId v).
  - js_run. by destruct (1 <=? timerId v).
Qed.

(** X8: one round of the refresh chain.  When a pending timer expires,
    the attempt counter goes up by one and a forced refresh
    ([updateToken(-1)]) is sent on the current client; when the provider
    reports the token refreshed and the expiry guards pass for the new
    client state [d], the tokens of [d] are stored and one timer is armed
    again with the early margin of the timer that expired, in a fresh
    slot whose handle is kept: the chain carries its margin along. *)
Theorem refresh_chain_round (w : World) (h : Z) (tm : Timer) (r : nat)
    (k : KeycloakInstance) (x : Value) (d : KeycloakData) (t : Readings) :
  1 <= h -> timers w !! Z.to_nat (h - 1) = Some (Some tm) ->
  kc w = Some r -> heap w !! r = Some k ->
  truthy x = true -> guards_pass d t = true ->
  let w1 := step (KeyCloakService.Fire h) w in
  let w2 := step (KeyCloakService.Settle (length (requests w)) (Fulfilled x) d t) w1 in
  counter w1 = counter w + 1
  /\ in_flight w1
     = (in_flight w ++ [{| rqKc := r; rqCall := CallUpdateToken (-1);
                          rqHandler := HScheduledRefresh (tmEarly tm) |}])%list
  /\ timers w1 = <[Z.to_nat (h - 1) := None]> (timers w)
  /\ in_flight w2 = in_flight w
  /\ timers w2
     = (<[Z.to_nat (h - 1) := None]> (timers w)
        ++ [Some {| tmDelay := access_margin d (now2 t) * 1000 - tmEarly tm;
                    tmEarly := tmEarly tm |}])%list
  /\ timerId w2 = Z.of_nat (length (timers w)) + 1
  /\ session w2 = persisted d (session w)
  /\ counter w2 = counter w + 1.
Proof.
  intros Hh Hslot Hkc Hk Hx Hguards w1 w2. subst w1 w2.
  rewrite (fire_run w h tm r Hh Hslot Hkc).
  split; [done|]. split; [unfold in_flight; simpl; apply omap_id_snoc_Some|].
  split; [done|].
  erewrite (scheduled_refresh_answered _ _ r _ (tmEarly tm) k); cycle 1.
  { simpl. rewrite lookup_app_r, Nat.sub_diag by done. reflexivity. }
  { exact Hkc. }
  { exact Hk. }
  cbv zeta. rewrite Hx, Hguards.
  split; [unfold in_flight; simpl; apply omap_id_take_slot|].
  split; [done|]. split; [simpl; by rewrite length_insert|]. done.
Qed.

(** Nothing armed and nothing in flight: the environment has nothing to
    deliver. *)
Lemma idle_step w ev :
  pending_timers w = [] -> in_flight w = [] -> environment_event ev -> step ev w = w.
Proof.
  intros Htimers Hrequests Hev. destruct ev as [op|h|rid s d t]; [done| |]; simpl.
  - destruct (1 <=? h); [|done].
    destruct (timers w !! Z.to_nat (h - 1)) as [[tm|]|] eqn:Hslot; [|done|done].
    apply omap_id_elem in Hslot. unfold pending_timers in Htimers.
    rewrite Htimers in Hslot. by apply not_elem_of_nil in Hslot.
  - destruct (requests w !! rid) as [[rq|]|] eqn:Hslot; [|done|done].
    apply omap_id_elem in Hslot. unfold in_flight in Hrequests.
    rewrite Hrequests in Hslot. by apply not_elem_of_nil in Hslot.
Qed.

Lemma idle_run w evs :
  pending_timers w = [] -> in_flight w = [] -> Forall environment_event evs ->
  run evs w = w.
Proof.
  intros Htimers Hrequests Hevs. induction Hevs as [|ev evs Hev _ IH]; [done|].
  rewrite run_cons, idle_step by done. exact IH.
Qed.

(** X9: the end of a refresh chain.  On a single chain, when the forced
    refresh of a timer is rejected, or is fulfilled without the token
    being reported refreshed, no timer is armed again: nothing is pending
    and nothing is in flight from then on, whatever the environment
    delivers; no retry takes place.  Session storage is left as it was:
    the stored tokens are not removed. *)
Theorem refresh_chain_ends (w : World) (rid : nat) (rq : Request) (s : Settled)
    (d : KeycloakData) (t : Readings) (evs : list KeyCloakService.Event) :
  one_chain w ->
  requests w !! rid = Some (Some rq) ->
  (forall x, s = Fulfilled x -> truthy x = false) ->
  Forall environment_event evs ->
  let w' := step (KeyCloakService.Settle rid s d t) w in
  pending_timers w' = [] /\ in_flight w' = []
  /\ session w' = session w
  /\ run evs w' = w'.
Proof.
  intros [Hall Hload] Hslot Hs Hevs w'.
  pose proof (omap_id_clear_Some _ _ _ Hslot) as Hless.
  assert (Hrq : scheduled_refresh rq).
  { eapply Forall_forall; [exact Hall|]. by eapply omap_id_elem. }
  destruct Hrq as [early Hearly].
  assert (Hnone : pending_timers w = []).
  { apply length_zero_iff_nil. unfold in_flight in *. lia. }
  assert (Hgone : omap id (<[rid := None]> (requests w)) = []).
  { apply length_zero_iff_nil. unfold in_flight in *. lia. }
  assert (Hw' : pending_timers w' = [] /\ in_flight w' = [] /\ session w' = session w).
  { subst w'. unfold KeyCloakService.step. rewrite Hslot, Hearly.
    unfold KeyCloakService.handle, then_catch.
    assert (Hcancel : forall i, omap id (<[i := None]> (timers w)) = []).
    { intros i. apply length_zero_iff_nil.
      pose proof (omap_id_clear_le (timers w) i) as Hle.
      unfold pending_timers in Hnone. rewrite Hnone in Hle. simpl in Hle. lia. }
    destruct s as [x|e].
    - rewrite (Hs x eq_refl). js_run. by unfold pending_timers, in_flight.
    - js_run. unfold pending_timers, in_flight.
      destruct (1 <=? timerId w); simpl; [by rewrite Hcancel|done]. }
  destruct Hw' as (H1 & H2 & H3).
  split; [exact H1|]. split; [exact H2|]. split; [exact H3|].
  by apply idle_run.
Qed.

End Chain.

Lemma refresh_chain_round_witness :
  timers (Sample.run [KeyCloakService.Fire 1;
                      KeyCloakService.Settle 1 (Fulfilled (VBool true))
                        Sample.tokens_B Sample.t0] Sample.signed_in)
  = [None; Some {| tmDelay := 1990000; tmEarly := 10000 |}].
Proof.
  edestruct (refresh_chain_round Sample.decodeJwt Sample.origin Sample.app_path
               Sample.signed_in 1 {| tmDelay := 990000; tmEarly := 10000 |} 0%nat
               {| config := "/config/kc/keycloak.json"; data := Sample.tokens_A;
                  login := kcLogin |}
               (VBool true) Sample.tokens_B Sample.t0)
    as (_ & _ & _ & _ & Htimers & _); [reflexivity..|].
  exact Htimers.
Defined.

Lemma refresh_chain_ends_witness :
  let w := Sample.step (KeyCloakService.Fire 1) Sample.signed_in in
  let w' := KeyCloakService.step Sample.decodeJwt Sample.origin Sample.app_path
              (KeyCloakService.Settle 1 (Rejected (VError "Network Error"))
                 Sample.tokens_A Sample.t0) w in
  pending_timers w' = [] /\ session w' = session w.
Proof.
  intros w w'.
  edestruct (refresh_chain_ends Sample.decodeJwt Sample.origin Sample.app_path
               w 1%nat
               {| rqKc := 0%nat; rqCall := CallUpdateToken (-1);
                  rqHandler := HScheduledRefresh 10000 |}
               (Rejected (VError "Network Error")) Sample.tokens_A Sample.t0
               [KeyCloakService.Fire 1; KeyCloakService.Fire 2])
    as (Hpending & _ & Hsession & _).
  - split.
    + vm_compute. constructor; [|constructor]. by eexists.
    + vm_compute. lia.
  - reflexivity.
  - intros x Hx. discriminate Hx.
  - repeat constructor.
  - split; [exact Hpending | exact Hsession].
Defined.

(** ** The client is there when it is needed *)

Section Clients.
Variable decodeJwt : string -> gmap string Value.
Variables location_origin VUE_APP_PATH : string.

Local Abbreviation invoke := (KeyCloakService.invoke decodeJwt).
Local Abbreviation handle := (KeyCloakService.handle decodeJwt location_origin VUE_APP_PATH).
Local Abbreviation step := (KeyCloakService.step decodeJwt location_origin VUE_APP_PATH).
Local Abbreviation run := (KeyCloakService.run decodeJwt location_origin VUE_APP_PATH).

(** As [step_preserves], for a property that need only survive the
    emptying of a timer or request slot. *)
Lemma step_preserves_slots (P : World -> Prop) :
  (forall w i, P w -> P (set_timers (<[i := None]> (timers w)) w)) ->
  (forall w i, P w -> P (set_requests (<[i := None]> (requests w)) w)) ->
  (forall w d r, P w -> P (set_heap (alter (KeyCloakService.set_data d) r (heap w)) w)) ->
  (forall op w, P w -> P (invoke op w)) ->
  (forall tm, preserves P (KeyCloakService.timer_callback tm)) ->
  (forall h s t, preserves P (handle h s t)) ->
  forall ev w, P w -> P (step ev w).
Proof.
  intros Htimers Hrequests Hheap Hinvoke Hfire Hsettle ev w Hw.
  destruct ev as [op | h | rid s d t]; simpl.
  - by apply Hinvoke.
  - destruct (1 <=? h); [|done].
    destruct (timers w !! Z.to_nat (h - 1)) as [[tm|]|]; [|done|done].
    apply Hfire. by apply Htimers.
  - destruct (requests w !! rid) as [[rq|]|]; [|done|done].
    apply Hsettle.
    apply (Hrequests (set_heap (alter (KeyCloakService.set_data d) (rqKc rq) (heap w)) w)
             rid).
    by apply Hheap.
Qed.

Lemma omap_id_clear_nil {A} (l : list (option A)) i :
  omap id l = [] -> omap id (<[i := None]> l) = [].
Proof.
  intros H. apply length_zero_iff_nil.
  pose proof (omap_id_clear_le l i) as Hle. rewrite H in Hle. simpl in Hle. lia.
Qed.

Lemma clear_slot_keeps_timers_have_client w i :
  timers_have_client w -> timers_have_client (set_timers (<[i := None]> (timers w)) w).
Proof.
  intros H Hkc. unfold pending_timers. simpl. apply omap_id_clear_nil. by apply H.
Qed.

Lemma clearTimeout_keeps_timers_have_client h :
  preserves timers_have_client (clearTimeout h).
Proof.
  intros w H. simpl. destruct (1 <=? h); [|done].
  by apply clear_slot_keeps_timers_have_client.
Qed.

Lemma new_kc_gives_timers_have_client : preserves timers_have_client new_kc.
Proof. intros w _ Hkc. discriminate Hkc. Qed.

Lemma new_promise_keeps_timers_have_client : preserves timers_have_client new_promise.
Proof. intros w H. exact H. Qed.

Lemma can_schedule_client w t : can_schedule w t = true -> kc w <> None.
Proof.
  intros Hcan Hkc. unfold can_schedule, KeyCloakService.refreshTokenExpiresIn in Hcan.
  unfold kc_data, the_kc in Hcan. by rewrite Hkc in Hcan.
Qed.

Lemma scheduleRefreshToken_keeps_timers_have_client ms t :
  preserves timers_have_client (KeyCloakService.scheduleRefreshToken ms t).
Proof.
  intros w H. rewrite scheduleRefreshToken_run.
  destruct (can_schedule w t) eqn:Hcan; [|exact H].
  intros Hkc. by apply can_schedule_client in Hcan.
Qed.

Ltac timers_leaf :=
  idtac;
  lazymatch goal with
  | |- preserves _ _ =>
      first [ apply clearTimeout_keeps_timers_have_client
            | apply new_kc_gives_timers_have_client
            | apply new_promise_keeps_timers_have_client
            | apply scheduleRefreshToken_keeps_timers_have_client ]
  | |- _ =>
      unfold timers_have_client, pending_timers in *; simpl in *;
      repeat case_match; simpl in *; first [done | solve [auto]]
  end.

Lemma step_keeps_timers_have_client ev w :
  timers_have_client w -> timers_have_client (step ev w).
Proof.
  revert ev w. apply step_preserves_slots.
  - intros. by apply clear_slot_keeps_timers_have_client.
  - done.
  - done.
  - intros op w Hw. destruct op; unfold KeyCloakService.invoke; cbv beta iota;
      unfold KeyCloakService.initializeKeyCloak, KeyCloakService.initSession,
        KeyCloakService.logout, KeyCloakService.refreshToken,
        KeyCloakService.initializeToken,
        KeyCloakService.syncSessionAndScheduleTokenRefresh;
      first [ apply preserves_async; [|done] | apply preserves_snd; [|done] ];
      pres_with timers_leaf.
  - intros tm. pres_with timers_leaf.
  - intros h s t. destruct h; pres_with timers_leaf.
Qed.

(** X10: the callback of a refresh timer calls [updateToken] on
    [this.kc] without a test.  That is safe: starting from a service for
    which every pending timer has a client (a new service has no timer),
    whatever methods are called, timers expire and provider calls
    complete, a pending timer always finds a client, so that its callback
    does not throw and sends its forced refresh. *)
Theorem pending_timer_finds_client (evs : list KeyCloakService.Event) (w : World)
    (h : Z) (tm : Timer) :
  timers_have_client w ->
  1 <= h ->
  timers (run evs w) !! Z.to_nat (h - 1) = Some (Some tm) ->
  exists r,
    kc (run evs w) = Some r
    /\ (forall v, kc v = Some r -> fst (KeyCloakService.timer_callback tm v) = Normal tt)
    /\ in_flight (step (KeyCloakService.Fire h) (run evs w))
       = (in_flight (run evs w)
          ++ [{| rqKc := r; rqCall := CallUpdateToken (-1);
                 rqHandler := HScheduledRefresh (tmEarly tm) |}])%list.
Proof.
  intros Hw Hh Hslot.
  assert (Hrun : timers_have_client (run evs w)).
  { revert Hw. apply (run_preserves decodeJwt location_origin VUE_APP_PATH).
    intros. by apply step_keeps_timers_have_client. }
  destruct (kc (run evs w)) as [r|] eqn:Hkc.
  - exists r. split; [done|]. split.
    + intros v Hv. unfold KeyCloakService.timer_callback. js_run. rewrite Hv. by js_run.
    + rewrite (fire_run decodeJwt location_origin VUE_APP_PATH _ h tm r Hh Hslot Hkc).
      unfold in_flight. simpl. apply omap_id_snoc_Some.
  - specialize (Hrun Hkc). apply omap_id_elem in Hslot.
    unfold pending_timers in Hrun. rewrite Hrun in Hslot.
    by apply not_elem_of_nil in Hslot.
Qed.

Lemma new_kc_gives_client : preserves has_client new_kc.
Proof.
  intros w _. exists (length (heap w)), (new_Keycloak (keycloakConfigUrl w)).
  split; [done|]. simpl. by rewrite lookup_app_r, Nat.sub_diag.
Qed.

Lemma alter_keeps_client w f r :
  has_client w -> has_client (set_heap (alter f r (heap w)) w).
Proof.
  intros (r0 & k & Hkc & Hk). unfold has_client. simpl.
  destruct (decide (r = r0)) as [->|Hne].
  - exists r0, (f k). split; [done|]. by rewrite list_lookup_alter_eq, Hk.
  - exists r0, k. split; [done|]. by rewrite list_lookup_alter_ne.
Qed.

Ltac client_leaf :=
  idtac;
  lazymatch goal with
  | |- preserves _ _ => apply new_kc_gives_client
  | |- _ =>
      first [ by apply alter_keeps_client
            | unfold has_client in *; simpl in *; repeat case_match; simpl in *; done ]
  end.

Lemma step_keeps_client ev w : has_client w -> has_client (step ev w).
Proof.
  revert ev w. apply step_preserves_slots; try done.
  - intros. by apply alter_keeps_client.
  - intros op w Hw. destruct op; unfold KeyCloakService.invoke; cbv beta iota;
      unfold KeyCloakService.initializeKeyCloak, KeyCloakService.initSession,
        KeyCloakService.logout, KeyCloakService.refreshToken,
        KeyCloakService.initializeToken,
        KeyCloakService.syncSessionAndScheduleTokenRefresh;
      first [ apply preserves_async; [|done] | apply preserves_snd; [|done] ];
      pres_with client_leaf.
  - intros tm. pres_with client_leaf.
  - intros h s t. destruct h; pres_with client_leaf.
Qed.

(** X11: the client is never given up.  Once the service holds a client
    ([initializeKeyCloak], [initializeToken] and a [logout] that proceeds
    each install one), it holds one for good: after any sequence of method
    calls, timers and provider responses, failed initialisations, refresh
    failures and logouts included, [isInitialized] is true and
    [getKCInstance] returns a client. *)
Theorem client_is_kept (evs : list KeyCloakService.Event) (w : World) :
  has_client w ->
  KeyCloakService.isInitialized (run evs w) = true
  /\ exists k, KeyCloakService.getKCInstance (run evs w) = Some k.
Proof.
  intros Hw.
  assert (Hrun : has_client (run evs w)).
  { revert Hw. apply (run_preserves decodeJwt location_origin VUE_APP_PATH).
    intros. by apply step_keeps_client. }
  destruct Hrun as (r & k & Hkc & Hk).
  unfold KeyCloakService.isInitialized, KeyCloakService.getKCInstance, the_kc.
  rewrite Hkc. split; [done|]. exists k. exact Hk.
Qed.

End Clients.

Lemma pending_timer_finds_client_witness :
  exists r, kc Sample.signed_in = Some r.
Proof.
  destruct (pending_timer_finds_client Sample.decodeJwt Sample.origin Sample.app_path
              [KeyCloakService.Invoke (KeyCloakService.OpInitializeToken true false);
               KeyCloakService.Settle 0 (Fulfilled (VBool true)) Sample.tokens_A Sample.t0]
              Sample.blank 1 {| tmDelay := 990000; tmEarly := 10000 |})
    as (r & Hkc & _).
  - intros _. reflexivity.
  - reflexivity.
  - reflexivity.
  - exists r. exact Hkc.
Defined.

Lemma client_is_kept_witness :
  KeyCloakService.isInitialized
    (Sample.run [KeyCloakService.Invoke (KeyCloakService.OpLogout None);
                 KeyCloakService.Settle 1 (Rejected (VError "Network Error"))
                   Sample.signed_out Sample.t0;
                 KeyCloakService.Invoke (KeyCloakService.OpRefreshToken true 1000000)]
       Sample.signed_in) = true.
Proof.
  apply (client_is_kept Sample.decodeJwt Sample.origin Sample.app_path).
  eexists _, _. split; reflexivity.
Defined.

(** ** On-demand refresh, completed *)

Section OnDemand.
Variable decodeJwt : string -> gmap string Value.
Variables location_origin VUE_APP_PATH : string.

Local Abbreviation step := (KeyCloakService.step decodeJwt location_origin VUE_APP_PATH).

Lemma getUserInfo_run w :
  KeyCloakService.getUserInfo decodeJwt w
  = (Normal (profile_of (claims_in_use decodeJwt w)),
     set_parsedToken (claims_in_use decodeJwt w) w).
Proof.
  unfold claims_in_use. destruct (cache_empty w) eqn:H.
  - by apply getUserInfo_decodes.
  - rewrite getUserInfo_cached by done. by destruct w.
Qed.

(** [initSession] without an active store: [useAuthStore] throws, the
    promise is rejected and nothing is touched. *)
Lemma initSession_without_store t w :
  authStore w = None ->
  KeyCloakService.initSession decodeJwt t w
  = (Now (Rejected KeyCloakService.NoActivePinia), w).
Proof.
  intros Ha. unfold KeyCloakService.initSession, KeyCloakService.initSession_body,
    KeyCloakService.useAuthStore.
  js_unfold. by rewrite Ha.
Qed.

(** [initSession] with an active store, case by case: [v] is the world
    once the store is written and the cache of [getUserInfo] is filled. *)
Lemma initSession_with_store t w a :
  authStore w = Some a ->
  exists v,
    is_Some (authStore v) /\ session v = session w /\ timers v = timers w
    /\ requests v = requests w /\ promises v = promises w
    /\ kc v = kc w /\ heap v = heap w
    /\ KeyCloakService.initSession decodeJwt t w
       = match kc_data w with
         | Some d =>
             if authenticated d then
               if guards_pass d t
               then (Now (Fulfilled VUndefined),
                     armed (access_margin d (now2 t) * 1000 - 10000) 10000
                       (set_session (persisted d (session v)) v))
               else (Now (Rejected KeyCloakService.RefreshTokenExpired),
                     set_session (persisted d (session v)) v)
             else (Now (Fulfilled VUndefined), cleared v)
         | None => (Now (Fulfilled VUndefined), cleared v)
         end.
Proof.
  intros Ha.
  exists (set_authStore
            (Some {| kcToken := VStr (str_or_empty (kc_token w));
                     storeIdToken := VStr (str_or_empty (kc_idToken w));
                     storeRefreshToken := VStr (str_or_empty (kc_refreshToken w));
                     kcGuid := or_else (claim (claims_in_use decodeJwt w) "sub") (VStr "");
                     storeLoginSource :=
                       or_else (claim (claims_in_use decodeJwt w) "loginSource") (VStr "") |})
            (set_parsedToken (claims_in_use decodeJwt w) w)).
  set (v := set_authStore _ _).
  assert (Hdata : kc_data v = kc_data w) by reflexivity.
  repeat (split; [first [by eexists | reflexivity]|]).
  assert (Hrun : KeyCloakService.initSession decodeJwt t w
                 = async (KeyCloakService.syncSessionAndScheduleTokenRefresh_body true t;;
                          resolved VUndefined) v).
  { subst v. unfold KeyCloakService.initSession, KeyCloakService.initSession_body,
      KeyCloakService.useAuthStore, KeyCloakService.setKCToken, KeyCloakService.setIDToken,
      KeyCloakService.setRefreshToken, KeyCloakService.setKCGuid,
      KeyCloakService.setLoginSource, KeyCloakService.modify_store.
    js_unfold. rewrite Ha, getUserInfo_run. cbn [fst snd authStore set_authStore
      set_parsedToken fmap option_fmap option_map].
    rewrite Ha. reflexivity. }
  rewrite Hrun. clearbody v. js_unfold.
  destruct (kc_data w) as [d|] eqn:Hd.
  - rewrite (syncSession_body_run true t v d) by (by rewrite Hdata).
    destruct (authenticated d); [destruct (guards_pass d t)|]; reflexivity.
  - rewrite (syncSession_body_without_client true t v) by (by rewrite Hdata).
    reflexivity.
Qed.

Lemma persisted_holds_tokens d s : holds_tokens d (persisted d s).
Proof. destruct (persisted_lookup d s) as (H1 & H2 & H3 & H4). by repeat split. Qed.

(** X12: a completed on-demand refresh.  When the provider reports the
    token refreshed and leaves the current client authenticated with
    passing expiry guards, the callback of [refreshToken] runs
    [initSession]: with an active auth store, session storage receives
    the tokens of the client and one more refresh timer is armed, with a
    margin of 10 s, beside the timers already pending, none of which is
    cancelled.  Without an active store [initSession] fails before it
    stores or arms anything, and nobody is told; when the provider reports
    no refresh, nothing is stored or armed either. *)
Theorem refreshToken_completed (w : World) (rid r : nat) (c : ProviderCall)
    (k : KeycloakInstance) (x : Value) (d : KeycloakData) (t : Readings) :
  requests w !! rid = Some (Some {| rqKc := r; rqCall := c; rqHandler := HRefreshToken |}) ->
  kc w = Some r -> heap w !! r = Some k ->
  authenticated d = true -> guards_pass d t = true ->
  let w' := step (KeyCloakService.Settle rid (Fulfilled x) d t) w in
  (truthy x = true -> is_Some (authStore w) ->
   pending_timers w'
   = (pending_timers w ++ [{| tmDelay := access_margin d (now2 t) * 1000 - 10000;
                              tmEarly := 10000 |}])%list
   /\ holds_tokens d (session w')
   /\ is_Some (authStore w')
   /\ promises w' = promises w)
  /\ (truthy x = false \/ authStore w = None ->
      timers w' = timers w /\ session w' = session w /\ authStore w' = authStore w
      /\ promises w' = promises w).
Proof.
  intros Hrq Hkc Hk Hauth Hguards w'. subst w'.
  unfold KeyCloakService.step. rewrite Hrq. cbn [rqHandler rqKc].
  set (v0 := set_requests _ _).
  assert (Hd : kc_data v0 = Some d).
  { unfold kc_data, the_kc. simpl. rewrite Hkc. simpl.
    by rewrite list_lookup_alter_eq, Hk. }
  assert (Hfields : timers v0 = timers w /\ session v0 = session w
                    /\ authStore v0 = authStore w /\ promises v0 = promises w)
    by done.
  destruct Hfields as (Ht0 & Hs0 & Ha0 & Hp0).
  clearbody v0.
  unfold KeyCloakService.handle, then_catch, returns_nothing, when,
    KeyCloakService.forget.
  js_unfold. split.
  - intros Hx [a Ha]. rewrite Hx. cbn [fst snd].
    destruct (initSession_with_store t v0 a) as (v & Hsome & Hs & Ht & _ & Hp & _ & _ & Hrun).
    { by rewrite Ha0. }
    rewrite Hrun, Hd, Hauth, Hguards. unfold pending_timers, armed. cbn [snd].
    cbn [timers session authStore promises set_timerId set_timers set_session].
    rewrite Ht, Ht0, Hp, Hp0.
    split; [apply omap_id_snoc_Some|]. split; [apply persisted_holds_tokens|done].
  - intros [Hx | Ha].
    + by rewrite Hx.
    + destruct (truthy x); [|done]. cbn [fst snd].
      rewrite initSession_without_store by (by rewrite Ha0). done.
Qed.

End OnDemand.

Lemma refreshToken_completed_witness :
  let w := snd (KeyCloakService.refreshToken true 1000000 Sample.signed_in) in
  let w' := KeyCloakService.step Sample.decodeJwt Sample.origin Sample.app_path
              (KeyCloakService.Settle 1 (Fulfilled (VBool true))
                 Sample.tokens_B Sample.t0) w in
  pending_timers w'
  = (pending_timers w
     ++ [{| tmDelay := access_margin Sample.tokens_B (now2 Sample.t0) * 1000 - 10000;
            tmEarly := 10000 |}])%list.
Proof.
  intros w w'.
  pose proof (refreshToken_completed Sample.decodeJwt Sample.origin Sample.app_path
                w 1 0 (CallUpdateToken (-1))
                {| config := "/config/kc/keycloak.json"; data := Sample.tokens_A;
                   login := kcLogin |}
                (VBool true) Sample.tokens_B Sample.t0
                eq_refl eq_refl eq_refl eq_refl eq_refl) as H.
  destruct H as [H _].
  destruct (H eq_refl (ex_intro _ empty_AuthState eq_refl)) as [Htimers _].
  exact Htimers.
Defined.

(** ** Roles and user information, further *)

Section Roles.
Variable decodeJwt : string -> gmap string Value.

Local Abbreviation getUserInfo := (KeyCloakService.getUserInfo decodeJwt).
Local Abbreviation verifyRoles := (KeyCloakService.verifyRoles decodeJwt).

Lemma some_without_roles l ui w :
  roles ui = None ->
  KeyCloakService.some l (KeyCloakService.roles_include ui) w
  = match l with
    | [] => (Normal false, w)
    | _ :: _ => (Thrown KeyCloakService.TypeError_includes, w)
    end.
Proof.
  intros Hr. destruct l as [|x l]; [done|]. cbn [KeyCloakService.some].
  unfold KeyCloakService.roles_include. rewrite Hr. reflexivity.
Qed.

(** The list [verifyRoles] consults, if any: [allowedRoles] when
    supplied, otherwise [disabledRoles]. *)
Lemma verifyRoles_throws_iff (l : list string) (w : World) (m : Js bool) :
  (forall w0, m w0
     = (ui ← getUserInfo; KeyCloakService.some l (KeyCloakService.roles_include ui)) w0
     \/ m w0
        = (ui ← getUserInfo;
           b ← KeyCloakService.some l (KeyCloakService.roles_include ui);
           mret (negb b)) w0) ->
  (exists e, fst (m w) = Thrown e) <-> user_roles decodeJwt w = None /\ l <> [].
Proof.
  intros Hm. unfold user_roles.
  assert (Hsome : forall w1,
    fst (KeyCloakService.some l
           (KeyCloakService.roles_include (profile_of (claims_in_use decodeJwt w))) w1)
    = match realm_roles (claims_in_use decodeJwt w), l with
      | None, _ :: _ => Thrown KeyCloakService.TypeError_includes
      | None, [] => Normal false
      | Some rs, _ => Normal (existsb (fun role => bool_decide (role ∈ rs)) l)
      end).
  { intros w1. destruct (realm_roles (claims_in_use decodeJwt w)) as [rs|] eqn:Hr.
    - by rewrite (some_with_roles l _ rs).
    - rewrite some_without_roles by done. by destruct l. }
  assert (Hfst : (exists e, fst (m w) = Thrown e)
                 <-> exists e, fst (KeyCloakService.some l
                                      (KeyCloakService.roles_include
                                         (profile_of (claims_in_use decodeJwt w)))
                                      (set_parsedToken (claims_in_use decodeJwt w) w))
                               = Thrown e).
  { destruct (Hm w) as [-> | ->];
      rewrite (bind_normal _ _ _ _ _ (getUserInfo_run decodeJwt w)); [done|].
    unfold mbind, Js_bind.
    destruct (KeyCloakService.some l _ _) as [[b|e] w1]; simpl; [|done].
    split; intros [e He]; discriminate He. }
  rewrite Hfst, Hsome.
  destruct (realm_roles (claims_in_use decodeJwt w)) as [rs|], l as [|x l]; split;
    try (intros [e He]; discriminate He); try (intros [? ?]; done).
  intros _. by eexists.
Qed.

(** X13: which list [verifyRoles] consults, and when it throws.  When
    [allowedRoles] is supplied, [disabledRoles] has no influence on the
    answer, the exception or the state.  The call throws (a TypeError)
    exactly when the list it consults is not empty and the decoded token
    carries no roles array; an empty deny-list grants access to every
    user. *)
Theorem verifyRoles_consults_one_list (w : World) :
  (forall allowedRoles disabledRoles,
     verifyRoles (Some allowedRoles) disabledRoles w = verifyRoles (Some allowedRoles) None w)
  /\ (forall allowedRoles disabledRoles,
        (exists e, fst (verifyRoles (Some allowedRoles) disabledRoles w) = Thrown e)
        <-> user_roles decodeJwt w = None /\ allowedRoles <> [])
  /\ (forall disabledRoles,
        (exists e, fst (verifyRoles None (Some disabledRoles) w) = Thrown e)
        <-> user_roles decodeJwt w = None /\ disabledRoles <> [])
  /\ fst (verifyRoles None (Some []) w) = Normal true.
Proof.
  split; [done|]. split; [|split].
  - intros allowedRoles disabledRoles. apply verifyRoles_throws_iff.
    intros w0. by left.
  - intros disabledRoles. apply verifyRoles_throws_iff.
    intros w0. by right.
  - unfold KeyCloakService.verifyRoles.
    rewrite (bind_normal _ _ _ _ _ (getUserInfo_run decodeJwt w)). reflexivity.
Qed.

(** X14: [getUserInfo] is idempotent and touches nothing but its cache:
    a second call in a row returns the same profile and leaves the
    service as the first call left it. *)
Theorem getUserInfo_twice (w : World) :
  let first := getUserInfo w in
  getUserInfo (snd first) = (fst first, snd first)
  /\ session (snd first) = session w /\ authStore (snd first) = authStore w
  /\ timers (snd first) = timers w /\ requests (snd first) = requests w
  /\ promises (snd first) = promises w /\ kc (snd first) = kc w
  /\ heap (snd first) = heap w.
Proof.
  intros first. subst first. rewrite (getUserInfo_run decodeJwt w). cbn [fst snd].
  split; [|done]. rewrite getUserInfo_run.
  assert (Hsame : claims_in_use decodeJwt (set_parsedToken (claims_in_use decodeJwt w) w)
                  = claims_in_use decodeJwt w).
  { unfold claims_in_use at 1. unfold cache_empty. simpl.
    unfold claims_in_use. destruct (cache_empty w) eqn:Hempty.
    - change (KeyCloakService.decodeKCToken decodeJwt
                (set_parsedToken (Some (KeyCloakService.decodeKCToken decodeJwt w)) w))
        with (KeyCloakService.decodeKCToken decodeJwt w).
      by destruct (bool_decide _).
    - unfold cache_empty in Hempty. destruct (parsedToken w) as [m|]; [|done].
      by rewrite Hempty. }
  by rewrite Hsame.
Qed.

End Roles.

(** ** Logout, further *)

Section LogoutMore.
Variable decodeJwt : string -> gmap string Value.
Variables location_origin VUE_APP_PATH : string.

Local Abbreviation step := (KeyCloakService.step decodeJwt location_origin VUE_APP_PATH).

(** X15: the two other ways the [init] call of a proceeding [logout] can
    end.  When the provider rejects it, the caller's promise is rejected
    with the reason and no [logout] call is sent.  When it reports the
    session not authenticated, the caller's promise is fulfilled at once,
    the [logout] call is sent all the same, and its outcome, fulfilled or
    rejected, no longer changes the promise.  In both cases session
    storage stays cleared except for the guard flag. *)
Theorem logout_init_outcomes (redirectUrl : option string) (w : World) (token : string) :
  KeyCloakService.stored KeyCloakToken w = Some token ->
  let p := length (promises w) in
  let rid := length (requests w) in
  let w1 := snd (KeyCloakService.logout redirectUrl w) in
  (forall e d t,
     let w2 := step (KeyCloakService.Settle rid (Rejected e) d t) w1 in
     promises w2 !! p = Some (Some (Rejected e))
     /\ in_flight w2 = in_flight w
     /\ session w2 = {[PreventStorageSync := "true"]})
  /\ (forall authenticated d t s d' t',
        truthy authenticated = false ->
        let w2 := step (KeyCloakService.Settle rid (Fulfilled authenticated) d t) w1 in
        let w3 := step (KeyCloakService.Settle (S rid) s d' t') w2 in
        promises w2 !! p = Some (Some (Fulfilled VUndefined))
        /\ in_flight w2
           = (in_flight w
              ++ [logout_request location_origin VUE_APP_PATH redirectUrl w])%list
        /\ promises w3 !! p = Some (Some (Fulfilled VUndefined))
        /\ in_flight w3 = in_flight w
        /\ session w3 = {[PreventStorageSync := "true"]}).
Proof.
  intros Htoken p rid w1. subst p rid w1.
  rewrite (logout_with_token _ _ _ Htoken). cbn [snd].
  assert (Hlen : forall rq : Request,
             length (<[length (requests w) := None]> (requests w ++ [Some rq])%list)
             = S (length (requests w))).
  { intros rq. rewrite length_insert, length_app. simpl. lia. }
  split.
  - intros e d t. unfold KeyCloakService.step, logout_started. simpl.
    rewrite lookup_app_r, Nat.sub_diag by done. simpl. js_run.
    rewrite lookup_app_r, Nat.sub_diag by done. simpl.
    split; [apply list_lookup_insert_eq; rewrite length_app; simpl; lia|].
    split; [|done]. unfold in_flight. simpl. apply omap_id_take_slot.
  - intros authenticated d t s d' t' Hauth.
    rewrite logout_init_answered, Hauth. cbv zeta.
    assert (Hsettled : <[length (promises w) := Some (Fulfilled VUndefined)]>
                         (promises w ++ [None])%list !! length (promises w)
                       = Some (Some (Fulfilled VUndefined))).
    { apply list_lookup_insert_eq. rewrite length_app. simpl. lia. }
    erewrite logout_call_answered; cycle 1.
    { simpl. rewrite lookup_app_r; rewrite Hlen; [|done].
      rewrite Nat.sub_diag. reflexivity. }
    simpl. rewrite Hsettled. simpl.
    split; [reflexivity|].
    split; [unfold in_flight; simpl; by rewrite omap_id_snoc_Some, omap_id_take_slot|].
    split; [first [reflexivity | exact Hsettled]|]. split; [|done].
    unfold in_flight. simpl.
    rewrite <- (Hlen (logout_init_request redirectUrl token w)) at 1.
    by rewrite omap_id_take_slot, omap_id_take_slot.
Qed.

End LogoutMore.

Lemma logout_init_outcomes_witness :
  promises
    (Sample.step (KeyCloakService.Settle 1 (Rejected (VError "Network Error"))
                    Sample.signed_out Sample.t0)
       (snd (KeyCloakService.logout None Sample.signed_in))) !! 1%nat
  = Some (Some (Rejected (VError "Network Error"))).
Proof.
  destruct (logout_init_outcomes Sample.decodeJwt Sample.origin Sample.app_path None
              Sample.signed_in "A" eq_refl) as [Hrejected _].
  destruct (Hrejected (VError "Network Error") Sample.signed_out Sample.t0) as [H _].
  exact H.
Defined.

(** X16: a [logout] that proceeds leaves nothing to log out from.  It
    installs a new client, not authenticated, without tokens and with the
    library's own [login] (a login hint installed by [initializeKeyCloak]
    is gone), and it empties session storage; so a second [logout], with
    whatever redirect, finds no stored token and is a no-op that contacts
    nobody.  Two [logout] calls in a row therefore send one [init] call
    at most. *)
Theorem logout_twice (redirectUrl redirectUrl' : option string) (w : World) :
  let w1 := snd (KeyCloakService.logout redirectUrl w) in
  KeyCloakService.logout redirectUrl' w1 = (Now (Fulfilled VUndefined), w1)
  /\ (forall token, KeyCloakService.stored KeyCloakToken w = Some token ->
        the_kc w1 = Some (new_Keycloak (keycloakConfigUrl w))
        /\ kc_data w1 = Some no_data
        /\ timers w1 = timers w /\ parsedToken w1 = parsedToken w
        /\ authStore w1 = authStore w).
Proof.
  intros w1. subst w1.
  destruct (KeyCloakService.stored KeyCloakToken w) as [token|] eqn:Htoken.
  - rewrite (logout_with_token _ _ _ Htoken). cbn [snd]. split.
    + by apply logout_without_token.
    + intros ? _. unfold kc_data, the_kc, logout_started. simpl.
      by rewrite lookup_app_r, Nat.sub_diag.
  - rewrite (logout_without_token _ _ Htoken). cbn [snd].
    split; [by apply logout_without_token | done].
Qed.

(** ** On-demand refresh, the call itself *)

(** X17: [refreshToken] never rejects and never throws; its promise is
    fulfilled at once, with [undefined], or with an error value exactly
    when the refresh is forced and the service has no client.  The call
    itself writes nothing and arms nothing; it sends one [updateToken]
    call at most, and none without a client. *)
Theorem refreshToken_always_fulfilled (isForceRefresh : bool) (now : Z) (w : World) :
  let w' := snd (KeyCloakService.refreshToken isForceRefresh now w) in
  fst (KeyCloakService.refreshToken isForceRefresh now w)
  = Now (Fulfilled (if isForceRefresh && negb (KeyCloakService.isInitialized w)
                    then VError "Could not refresh Token:No Kc Instance"
                    else VUndefined))
  /\ session w' = session w /\ timers w' = timers w /\ promises w' = promises w
  /\ authStore w' = authStore w /\ parsedToken w' = parsedToken w
  /\ (exists sent, in_flight w' = (in_flight w ++ sent)%list /\ (length sent <= 1)%nat
                   /\ (KeyCloakService.isInitialized w = false -> sent = [])).
Proof.
  intros w'. subst w'.
  unfold KeyCloakService.refreshToken, KeyCloakService.refreshToken_body,
    KeyCloakService.isInitialized.
  js_unfold. unfold kc_exp, kc_timeSkew, kc_data, the_kc.
  destruct (kc w) as [r|] eqn:Hkc; simpl.
  - destruct (negb isForceRefresh && _) eqn:Hguard; simpl.
    + rewrite andb_false_r. repeat (split; [done|]).
      exists []. rewrite app_nil_r. split; [done | split; [simpl; lia | done]].
    + rewrite andb_false_r. unfold call_provider, modify. simpl.
      repeat (split; [done|]). eexists [_]. split; [|split; [simpl; lia|done]].
      unfold in_flight. simpl. apply omap_id_snoc_Some.
  - destruct isForceRefresh; simpl; repeat (split; [done|]);
      exists []; rewrite app_nil_r; (split; [done | split; [simpl; lia | done]]).
Qed.

(** ** The redirect rewriting of [logout] *)

Lemma collapse_slashes_only_deletes_slashes skip in_run s :
  without_slashes (collapse_slashes skip in_run s) = without_slashes s
  /\ (String.length (collapse_slashes skip in_run s) <= String.length s)%nat.
Proof.
  revert skip in_run. induction s as [|c s IH]; intros skip in_run; [done|].
  cbn [collapse_slashes].
  destruct skip as [|k].
  - destruct (String.prefix "https://" (String c s));
      [|destruct (String.prefix "http://" (String c s));
        [|destruct (Ascii.eqb c "/") eqn:Hc; [destruct in_run|]]].
    + destruct (IH 7%nat false) as [H1 H2]. cbn [without_slashes String.length].
      rewrite H1. split; [done|lia].
    + destruct (IH 6%nat false) as [H1 H2]. cbn [without_slashes String.length].
      rewrite H1. split; [done|lia].
    + destruct (IH 0%nat true) as [H1 H2]. cbn [without_slashes String.length].
      rewrite Hc. split; [done|lia].
    + destruct (IH 0%nat true) as [H1 H2]. cbn [without_slashes String.length].
      rewrite Hc. split; [done|lia].
    + destruct (IH 0%nat false) as [H1 H2]. cbn [without_slashes String.length].
      rewrite Hc, H1. split; [done|lia].
  - destruct (IH k false) as [H1 H2]. cbn [without_slashes String.length].
    rewrite H1. split; [done|lia].
Qed.

Lemma without_slashes_id s :
  without_slashes s = s -> forall skip in_run, collapse_slashes skip in_run s = s.
Proof.
  induction s as [|c s IH]; intros Hs skip in_run; [done|].
  cbn [without_slashes] in Hs.
  destruct (Ascii.eqb c "/") eqn:Hc.
  - exfalso.
    assert (Hlen : (String.length (without_slashes s) <= String.length s)%nat).
    { clear. induction s as [|c s IH]; [done|]. cbn [without_slashes].
      destruct (Ascii.eqb c "/"); simpl; lia. }
    rewrite Hs in Hlen. simpl in Hlen. lia.
  - injection Hs as Hs. cbn [collapse_slashes]. rewrite Hc.
    destruct skip as [|k]; [|by rewrite IH].
    destruct (String.prefix "https://" (String c s)); [by rewrite IH|].
    destruct (String.prefix "http://" (String c s)); by rewrite IH.
Qed.

(** X18: the rewriting that [logout] applies to the redirect address
    before handing it to the logout gateway only deletes slashes: with the
    slashes left out, the address is the same before and after; the
    result is never longer, an address without slashes is not changed,
    and a leading [https://] or [http://] keeps both its slashes. *)
Theorem collapse_slashes_deletes_slashes_only (s : string) :
  without_slashes (collapse_slashes 0 false s) = without_slashes s
  /\ (String.length (collapse_slashes 0 false s) <= String.length s)%nat
  /\ (without_slashes s = s -> collapse_slashes 0 false s = s)
  /\ collapse_slashes 0 false ("https://" +:+ s) = "https://" +:+ collapse_slashes 0 false s
  /\ collapse_slashes 0 false ("http://" +:+ s) = "http://" +:+ collapse_slashes 0 false s.
Proof.
  destruct (collapse_slashes_only_deletes_slashes 0 false s) as [H1 H2].
  split; [exact H1|]. split; [exact H2|].
  split; [intros Hs; by apply without_slashes_id|].
  clear H1 H2. destruct s; split; reflexivity.
Qed.

(** ** [initSession] and re-entrant initialisation *)

Lemma cleared_fields (w : World) :
  session (cleared w) = without_tokens (session w)
  /\ promises (cleared w) = promises w /\ timers (cleared w) = timers w
  /\ kc (cleared w) = kc w /\ heap (cleared w) = heap w.
Proof. unfold cleared. by destruct (authStore w). Qed.

Section InitSession.
Variable decodeJwt : string -> gmap string Value.
Variables location_origin VUE_APP_PATH : string.

Local Abbreviation step := (KeyCloakService.step decodeJwt location_origin VUE_APP_PATH).

(** X19: how [initSession] ends.  Without an active auth store it
    rejects, [useAuthStore] having thrown, and nothing is stored, removed
    or armed.  With an active store it does not tell its caller that the
    user is not authenticated: without an authenticated client its promise
    is fulfilled with [undefined] all the same, after the stored tokens
    have been removed, and no timer is armed; with an authenticated
    client it is fulfilled once the tokens are stored and a timer is
    armed, unless an expiry guard of the scheduler fails: then it rejects
    with 'Refresh Token Expired. No more token refreshes', the tokens
    being stored by then.  The store stays active throughout. *)
Theorem initSession_outcome (t : Readings) (w : World) :
  let result := KeyCloakService.initSession decodeJwt t w in
  (authStore w = None ->
   (exists e, fst result = Now (Rejected e)) /\ snd result = w)
  /\ (is_Some (authStore w) ->
      is_Some (authStore (snd result))
      /\ (kc_data w = None \/ (exists d, kc_data w = Some d /\ authenticated d = false) ->
          fst result = Now (Fulfilled VUndefined)
          /\ session (snd result) = without_tokens (session w)
          /\ timers (snd result) = timers w)
      /\ (forall d, kc_data w = Some d -> authenticated d = true ->
          holds_tokens d (session (snd result))
          /\ if guards_pass d t
             then fst result = Now (Fulfilled VUndefined)
                  /\ pending_timers (snd result)
                     = (pending_timers w
                        ++ [{| tmDelay := access_margin d (now2 t) * 1000 - 10000;
                               tmEarly := 10000 |}])%list
             else fst result
                  = Now (Rejected (VError "Refresh Token Expired. No more token refreshes"))
                  /\ timers (snd result) = timers w)).
Proof.
  intros result. subst result. split.
  - intros Ha. rewrite initSession_without_store by exact Ha. split; [by eexists|done].
  - intros [a Ha].
    destruct (initSession_with_store decodeJwt t w a Ha)
      as (v & Hsome & Hs & Ht & _ & _ & _ & _ & Hrun).
    rewrite Hrun. clear Hrun.
    destruct (cleared_fields v) as (Hcs & _ & Hct & _ & _).
    assert (Hca : is_Some (authStore (cleared v))).
    { unfold cleared. destruct Hsome as [a' Ha']. rewrite Ha'. by eexists. }
    split; [|split].
    + destruct (kc_data w) as [d|]; [|exact Hca].
      destruct (authenticated d); [|exact Hca].
      by destruct (guards_pass d t).
    + intros [Hd | (d & Hd & Hauth)]; rewrite Hd; [|rewrite Hauth]; cbn [fst snd];
        by rewrite Hcs, Hct, Hs, Ht.
    + intros d Hd Hauth. rewrite Hd, Hauth.
      destruct (guards_pass d t); cbn [fst snd]; unfold pending_timers, armed;
        cbn [timers session set_timerId set_timers set_session]; rewrite Ht.
      * split; [apply persisted_holds_tokens|]. split; [done|apply omap_id_snoc_Some].
      * split; [apply persisted_holds_tokens|done].
Qed.

(** The answer to the first of two overlapping [init] calls, as a world:
    [v0] is the world the callback starts in. *)
Lemma initializeToken_reentrant_run (s1 f1 s2 f2 : bool) (w : World) (x : Value)
    (d : KeycloakData) (t : Readings) :
  exists v0,
    kc_data v0 = Some no_data
    /\ promises v0 = ((promises w ++ [None]) ++ [None])%list
    /\ timers v0 = timers w
    /\ (data <$> heap v0 !! length (heap w)) = Some d
    /\ step (KeyCloakService.Settle (length (requests w)) (Fulfilled x) d t)
          (initializeToken_started s2 f2 (initializeToken_started s1 f1 w))
        = set_promises
            (<[length (promises w) := Some (Fulfilled KeyCloakService.NOT_AUTHENTICATED)]>
               (promises (cleared v0)))
            (cleared v0).
Proof.
  set (w2 := initializeToken_started s2 f2 (initializeToken_started s1 f1 w)).
  exists (set_requests (<[length (requests w) := None]> (requests w2))
            (set_heap (alter (KeyCloakService.set_data d) (length (heap w)) (heap w2)) w2)).
  set (v0 := set_requests _ _).
  assert (Hrq : requests w2 !! length (requests w)
                = Some (Some {| rqKc := length (heap w);
                                rqCall := CallInit (initializeToken_options f1 w);
                                rqHandler := HInitializeToken (length (promises w)) s1 |})).
  { subst w2. unfold initializeToken_started.
    cbn [requests set_requests set_session set_kc set_heap set_promises].
    rewrite lookup_app_l by (rewrite length_app; simpl; lia).
    by rewrite lookup_app_r, Nat.sub_diag. }
  assert (Hheap2 : heap w2 = ((heap w ++ [new_Keycloak (keycloakConfigUrl w)])
                              ++ [new_Keycloak (keycloakConfigUrl w)])%list)
    by reflexivity.
  assert (Hd : kc_data v0 = Some no_data).
  { unfold kc_data, the_kc.
    change (kc v0) with (Some (length (heap w ++ [new_Keycloak (keycloakConfigUrl w)]))).
    change (heap v0)
      with (alter (KeyCloakService.set_data d) (length (heap w)) (heap w2)).
    rewrite Hheap2, length_app. cbn [length mbind option_bind].
    rewrite list_lookup_alter_ne by lia.
    rewrite lookup_app_r; rewrite length_app; cbn [length]; [|lia].
    by replace (length (heap w) + 1 - (length (heap w) + 1))%nat with 0%nat by lia. }
  assert (Hp0 : promises v0 = ((promises w ++ [None]) ++ [None])%list) by reflexivity.
  assert (Ht0 : timers v0 = timers w) by reflexivity.
  assert (Hh : (data <$> heap v0 !! length (heap w)) = Some d).
  { change (heap v0)
      with (alter (KeyCloakService.set_data d) (length (heap w)) (heap w2)).
    rewrite Hheap2, list_lookup_alter_eq.
    rewrite lookup_app_l by (rewrite length_app; simpl; lia).
    by rewrite lookup_app_r, Nat.sub_diag. }
  repeat (split; [assumption|]).
  unfold KeyCloakService.step. rewrite Hrq. cbn [rqHandler rqKc]. fold v0.
  clearbody v0. clear Hrq Hheap2. clearbody w2.
  unfold KeyCloakService.handle, then_catch, returns_nothing,
    KeyCloakService.resolve_with.
  js_unfold. rewrite (syncSession_body_run s1 t v0 no_data Hd).
  cbn [authenticated no_data]. unfold resolve, settle, modify.
  destruct (cleared_fields v0) as (_ & Hpromises & _).
  assert (Hpending : promises (cleared v0) !! length (promises w) = Some None).
  { rewrite Hpromises, Hp0.
    rewrite lookup_app_l by (rewrite length_app; simpl; lia).
    by rewrite lookup_app_r, Nat.sub_diag. }
  by rewrite Hpending.
Qed.

(** X20: [initializeToken] is not re-entrant.  When it is called again
    before the provider has answered the first [init] call, the answer to
    the first call is judged by the client of the second call, which is
    not authenticated yet: even if the provider authenticated the first
    client (state [d]), the first promise is fulfilled with the error
    value NOT_AUTHENTICATED, the stored tokens are removed and no timer
    is armed; the second promise stays pending. *)
Theorem initializeToken_reentrant (s1 f1 s2 f2 : bool) (w : World) (x : Value)
    (d : KeycloakData) (t : Readings) :
  let w1 := snd (KeyCloakService.initializeToken s1 f1 w) in
  let w2 := snd (KeyCloakService.initializeToken s2 f2 w1) in
  let w3 := step (KeyCloakService.Settle (length (requests w)) (Fulfilled x) d t) w2 in
  promises w3 !! length (promises w) = Some (Some (Fulfilled (VError "NOT_AUTHENTICATED")))
  /\ promises w3 !! S (length (promises w)) = Some None
  /\ KeyCloakService.stored KeyCloakToken w3 = None
  /\ KeyCloakService.stored KeyCloakRefreshToken w3 = None
  /\ KeyCloakService.stored KeyCloakIdToken w3 = None
  /\ timers w3 = timers w
  /\ (data <$> heap w3 !! length (heap w)) = Some d
  /\ kc_data w3 = Some no_data.
Proof.
  intros w1 w2 w3. subst w1 w2 w3. rewrite !initializeToken_run. cbn [snd].
  destruct (initializeToken_reentrant_run s1 f1 s2 f2 w x d t)
    as (v0 & Hd & Hp0 & Ht0 & Hh & Hrun).
  rewrite Hrun. clear Hrun.
  destruct (cleared_fields v0) as (Hsession & Hpromises & Htimers & Hkc & Hheap).
  destruct (without_tokens_lookup (session v0)) as (H1 & H2 & H3).
  unfold KeyCloakService.stored, ConfigHelper.getFromSession, kc_data, the_kc in *.
  cbn [promises session timers kc heap set_promises].
  rewrite Hsession, H1, H2, H3, Htimers, Hkc, Hheap, Hpromises, Hp0, Ht0, Hh.
  split.
  { apply list_lookup_insert_eq. rewrite !length_app. simpl. lia. }
  split.
  { rewrite list_lookup_insert_ne by lia.
    rewrite lookup_app_r; rewrite length_app; simpl; [|lia].
    by replace (S (length (promises w)) - (length (promises w) + 1))%nat with 0%nat by lia. }
  repeat (split; [done|]). exact Hd.
Qed.

End InitSession.
